(** * GameFrame: view/output/input coordination engine

    A shallow embedding of the compositor's process supervisor, seat,
    output manager, idle-inhibit tracker and per-kind [is_transient_for]
    adapters, with the properties of the specification stated over it.

    Sources, with the names the comments below use for them:
    - main.c: src/unnamed/part_000 (first file);
    - view.h and output.c: src/unnamed/part_003;
    - seat.h: src/unnamed/part_002; seat.c: src/source-code/seat.c;
    - idle_inhibit_v1.c: src/unnamed/part_004;
    - xdg_shell.c: src/source-code/xdg_shell.c;
    - server.h, xwayland.c (its head) and output.h:
      src/source-code/server.h.
    view.c is not among them.

    Conventions.
    - A C pointer is an address ([addr]); a nullable pointer is an
      [option addr] with [None] for NULL.
    - A [wl_list] is a Rocq list whose head is the element that follows the
      list head, so [wl_list_insert (list, elm)] is a cons.
    - State that wlroots or libwayland keeps and the code depends on (the
      run flag of the display, the members of the output layout, the
      capabilities and keyboard focus of the seat, the inhibited flag of
      the idle notifier) is a field of the record of its owner; other
      calls to collaborators are logged, in order, as [call]s; results
      that the code branches on come from an explicit environment. *)

From stdpp Require Import base numbers list option gmap.
From Stdlib Require Import ZArith Lia Bool.

Local Open Scope Z_scope.

(** ** Addresses *)

Abbreviation addr := positive (only parsing).

(** ** wayland-util.h: lists *)

Definition wl_list_empty {A} (l : list A) : bool :=
  match l with [] => true | _ => false end.

(** [wl_list_remove] of the element that stands for the object at [a]. *)
Fixpoint wl_list_remove (a : addr) (l : list addr) : list addr :=
  match l with
  | [] => []
  | x :: l' => if decide (x = a) then l' else x :: wl_list_remove a l'
  end.

(** A [struct wl_list] that serves as the head of a list, for a head
    that the program may leave without [wl_list_init]: the zeroed memory
    [{NULL, NULL}] of such a head, or a well-formed list. *)
Inductive wl_list_head (A : Type) : Type :=
| wl_zeroed
| wl_linked (l : list A).

Arguments wl_zeroed {A}.
Arguments wl_linked {A} l.

(** [wl_list_empty (head)] is [head->next == head]: on a zeroed head
    [next] is NULL, which is not the head, so the answer is "not empty". *)
Definition wl_head_empty {A} (head : wl_list_head A) : bool :=
  match head with
  | wl_zeroed => false
  | wl_linked l => wl_list_empty l
  end.

(** [wl_list_insert (head, elm)] ends in [elm->next->prev = elm], where
    [elm->next] is the old [head->next]: on a zeroed head that is a write
    through NULL, and the call does not return ([None]). *)
Definition wl_head_insert {A} (head : wl_list_head A) (elm : A) : option (wl_list_head A) :=
  match head with
  | wl_zeroed => None
  | wl_linked l => Some (wl_linked (elm :: l))
  end.

(** The elements linked to a head; a zeroed head links none. *)
Definition wl_head_elements {A} (head : wl_list_head A) : list A :=
  match head with
  | wl_zeroed => []
  | wl_linked l => l
  end.

(** ** C integers *)

(** The value of an [int] or [int32_t] expression, in two's complement
    on 32 bits. *)
Definition to_int32 (z : Z) : Z := (z + 2 ^ 31) mod 2 ^ 32 - 2 ^ 31.

(** The value of a [uint32_t] expression. *)
Definition to_uint32 (z : Z) : Z := z mod 2 ^ 32.

(** ** <sys/wait.h>: decoding of a wait status (glibc, bits/waitstatus.h) *)

Module Wait.

(** [__WTERMSIG(status)  ((status) & 0x7f)] *)
Definition WTERMSIG (status : Z) : Z := Z.land status 127.

(** [__WEXITSTATUS(status)  (((status) & 0xff00) >> 8)] *)
Definition WEXITSTATUS (status : Z) : Z := Z.shiftr (Z.land status 65280) 8.

(** [__WIFEXITED(status)  (__WTERMSIG(status) == 0)] *)
Definition WIFEXITED (status : Z) : bool := WTERMSIG status =? 0.

(** The conversion [(signed char) x] of an int. *)
Definition signed_char (x : Z) : Z :=
  let b := x mod 256 in if b <? 128 then b else b - 256.

(** [__WIFSIGNALED(status)
      (((signed char) (((status) & 0x7f) + 1) >> 1) > 0)] *)
Definition WIFSIGNALED (status : Z) : bool :=
  0 <? Z.shiftr (signed_char (Z.land status 127 + 1)) 1.

(** What the kernel reports about a child, and the status word encoding
    it: [__W_EXITCODE(ret, sig)  ((ret) << 8 | (sig))],
    [__WCOREFLAG 0x80], [__W_STOPCODE(sig)  ((sig) << 8 | 0x7f)],
    [__W_CONTINUED 0xffff]. *)
Inductive wait_outcome :=
| Exited (code : Z)
| Signaled (sig : Z) (core : bool)
| Stopped (sig : Z)
| Continued.

Definition wait_status (o : wait_outcome) : Z :=
  match o with
  | Exited code => Z.lor (Z.shiftl code 8) 0
  | Signaled sig core => Z.lor (Z.lor (Z.shiftl 0 8) sig) (if core then 128 else 0)
  | Stopped sig => Z.lor (Z.shiftl sig 8) 127
  | Continued => 65535
  end.

(** Exit codes are 8 bits wide; signal numbers range over 1..126 (127 is
    the marker of a stopped child). *)
Definition valid_outcome (o : wait_outcome) : Prop :=
  match o with
  | Exited code => 0 <= code < 256
  | Signaled sig _ => 1 <= sig < 127
  | Stopped sig => 1 <= sig < 127
  | Continued => True
  end.

End Wait.

(** ** Process credentials (getuid(2), setuid(2), setgid(2))

    The real, effective and saved user and group ids of the process.  A
    process is privileged for set*id purposes when its effective uid is 0. *)

Module Cred.

Record creds := mkCreds {
  ruid : Z; euid : Z; suid : Z;
  rgid : Z; egid : Z; sgid : Z;
}.

(** A computation over the process credentials. *)
Definition M (A : Type) : Type := creds -> A * creds.

Definition ret {A} (a : A) : M A := fun c => (a, c).
Definition bind {A B} (m : M A) (k : A -> M B) : M B :=
  fun c => let '(a, c') := m c in k a c'.

Declare Scope cred_scope.
Delimit Scope cred_scope with cred.
Notation "x <- m ;; k" := (bind m (fun x => k))
  (at level 100, m at next level, right associativity) : cred_scope.

Definition getuid : M Z := fun c => (ruid c, c).
Definition geteuid : M Z := fun c => (euid c, c).
Definition getgid : M Z := fun c => (rgid c, c).
Definition getegid : M Z := fun c => (egid c, c).

(** setuid(2): a privileged caller sets all three user ids; an
    unprivileged one may only set the effective id to the real or saved
    id; otherwise EPERM. *)
Definition setuid (u : Z) : M Z := fun c =>
  if euid c =? 0 then
    (0, mkCreds u u u (rgid c) (egid c) (sgid c))
  else if (u =? ruid c) || (u =? suid c) then
    (0, mkCreds (ruid c) u (suid c) (rgid c) (egid c) (sgid c))
  else (-1, c).

(** setgid(2), likewise for the group ids. *)
Definition setgid (g : Z) : M Z := fun c =>
  if euid c =? 0 then
    (0, mkCreds (ruid c) (euid c) (suid c) g g g)
  else if (g =? rgid c) || (g =? sgid c) then
    (0, mkCreds (ruid c) (euid c) (suid c) (rgid c) g (sgid c))
  else (-1, c).

(** No user or group id of the process is root's, so root can neither be
    used nor regained. *)
Definition unprivileged (c : creds) : Prop :=
  ruid c <> 0 /\ euid c <> 0 /\ suid c <> 0 /\
  rgid c <> 0 /\ egid c <> 0 /\ sgid c <> 0.

End Cred.

(** ** server.h, output.h: the server context *)

Inductive gameframe_multi_output_mode :=
| GAMEFRAME_MULTI_OUTPUT_MODE_EXTEND
| GAMEFRAME_MULTI_OUTPUT_MODE_LAST.

Global Instance gameframe_multi_output_mode_eq_dec : EqDecision gameframe_multi_output_mode.
Proof. solve_decision. Defined.

(** [struct gf_output], with what the code reads of the [wlr_output] it
    points to: whether the Wayland or the X11 backend made it, and its
    [enabled] flag. *)
Record gf_output := mkOutput {
  wlr_output : addr;
  scene_output : option addr;
  is_wl : bool;
  is_x11 : bool;
  enabled : bool;
}.

(** Calls to collaborators whose only trace in the model is that they
    happened. *)
Inductive call :=
| wlr_session_change_vt (vt : Z)
| wlr_idle_notifier_v1_notify_activity
| wlr_seat_set_keyboard
| wlr_seat_keyboard_notify_key (time_msec keycode state : Z)
| wlr_idle_notifier_v1_set_inhibited (inhibited : bool)
| wlr_output_commit_state (output : addr) (enable : bool)
| wlr_output_manager_v1_set_configuration
| wlr_output_swapchain_manager_prepare
| wlr_scene_output_build_state (output : addr)
| wlr_backend_commit
| wlr_output_swapchain_manager_finish
| wlr_output_configuration_v1_send_succeeded (config : addr)
| wlr_output_configuration_v1_send_failed (config : addr)
| view_position_all.

(** [struct gf_server]: the fields the modelled code reads or writes.
    [display_run] is the [run] flag of [server->wl_display];
    [backend_is_multi] is [wlr_backend_is_multi (server->backend)];
    [output_layout] lists the outputs held by [server->output_layout];
    [idle_inhibited] is the inhibited flag of [server->idle]; [calls] is
    the log of collaborator calls, oldest first. *)
Record gf_server := mkServer {
  display_run : bool;
  terminated : bool;
  backend_is_multi : bool;
  session : option addr;
  output_layout : list addr;
  outputs : list gf_output;
  idle_inhibited : bool;
  output_mode : gameframe_multi_output_mode;
  allow_vt_switch : bool;
  return_app_code : bool;
  inhibitors : wl_list_head addr;
  calls : list call;
}.

Definition set_display_run (b : bool) (s : gf_server) : gf_server :=
  mkServer b (terminated s) (backend_is_multi s) (session s) (output_layout s)
    (outputs s) (idle_inhibited s) (output_mode s) (allow_vt_switch s)
    (return_app_code s) (inhibitors s) (calls s).

Definition set_terminated (b : bool) (s : gf_server) : gf_server :=
  mkServer (display_run s) b (backend_is_multi s) (session s) (output_layout s)
    (outputs s) (idle_inhibited s) (output_mode s) (allow_vt_switch s)
    (return_app_code s) (inhibitors s) (calls s).

Definition set_output_layout (l : list addr) (s : gf_server) : gf_server :=
  mkServer (display_run s) (terminated s) (backend_is_multi s) (session s) l
    (outputs s) (idle_inhibited s) (output_mode s) (allow_vt_switch s)
    (return_app_code s) (inhibitors s) (calls s).

Definition set_outputs (l : list gf_output) (s : gf_server) : gf_server :=
  mkServer (display_run s) (terminated s) (backend_is_multi s) (session s)
    (output_layout s) l (idle_inhibited s) (output_mode s) (allow_vt_switch s)
    (return_app_code s) (inhibitors s) (calls s).

Definition set_idle_inhibited (b : bool) (s : gf_server) : gf_server :=
  mkServer (display_run s) (terminated s) (backend_is_multi s) (session s)
    (output_layout s) (outputs s) b (output_mode s) (allow_vt_switch s)
    (return_app_code s) (inhibitors s) (calls s).

Definition set_return_app_code (b : bool) (s : gf_server) : gf_server :=
  mkServer (display_run s) (terminated s) (backend_is_multi s) (session s)
    (output_layout s) (outputs s) (idle_inhibited s) (output_mode s)
    (allow_vt_switch s) b (inhibitors s) (calls s).

Definition set_inhibitors (l : wl_list_head addr) (s : gf_server) : gf_server :=
  mkServer (display_run s) (terminated s) (backend_is_multi s) (session s)
    (output_layout s) (outputs s) (idle_inhibited s) (output_mode s)
    (allow_vt_switch s) (return_app_code s) l (calls s).

(** Record a collaborator call. *)
Definition emit (c : call) (s : gf_server) : gf_server :=
  mkServer (display_run s) (terminated s) (backend_is_multi s) (session s)
    (output_layout s) (outputs s) (idle_inhibited s) (output_mode s)
    (allow_vt_switch s) (return_app_code s) (inhibitors s) (calls s ++ [c]).

(** The server before the event loop runs: every field zero, the output
    mode and the VT-switch permission as the command line set them.
    [main] calls [wl_list_init] on [server.views] and [server.outputs];
    it calls it nowhere on [server.inhibitors], whose head stays the
    zeroed memory of the initialiser of [server]. *)
Definition server_init (mode : gameframe_multi_output_mode) (vt : bool) : gf_server :=
  mkServer false false false None [] [] false mode vt false wl_zeroed [].

(** [wl_display_terminate]: clears the display's [run] flag. *)
Definition wl_display_terminate (server : gf_server) : gf_server :=
  set_display_run false server.

(** main.c, [server_terminate]. *)
Definition server_terminate (server : gf_server) : gf_server :=
  if terminated server then server else wl_display_terminate server.

(** main.c, [handle_display_destroy]. *)
Definition handle_display_destroy (server : gf_server) : gf_server :=
  set_terminated true server.

(** ** main.c: the process supervisor *)

Module Supervisor.
Import Wait Cred.
Local Open Scope cred_scope.

Definition SIGINT : Z := 2.
Definition SIGTERM : Z := 15.

(** [sigchld_handler]: the mask only selects a log line. *)
Definition sigchld_handler (mask : Z) (server : gf_server) : gf_server :=
  server_terminate (set_return_app_code true server).

Definition handle_signal (signal : Z) (server : gf_server) : gf_server :=
  if signal =? SIGINT then server_terminate server
  else if signal =? SIGTERM then server_terminate server
  else server.

(** [cleanup_primary_client]: [waitpid] stores the status of [pid]. *)
Definition cleanup_primary_client (waitpid : Z -> Z) (pid : Z) : Z :=
  let status := waitpid pid in
  if WIFEXITED status then WEXITSTATUS status
  else if WIFSIGNALED status then 128 + WTERMSIG status
  else 0.

(** [drop_permissions], one model call per system call of the source and
    C's short-circuit [||] written out. *)
Definition drop_permissions : M bool :=
  uid <- getuid ;;
  root_gid <- (if uid =? 0 then ret true else gid <- getgid ;; ret (gid =? 0)) ;;
  if root_gid then ret true
  else
    uid <- getuid ;; euid <- geteuid ;;
    setxid <- (if negb (uid =? euid) then ret true
               else gid <- getgid ;; egid <- getegid ;; ret (negb (gid =? egid))) ;;
    failed <-
      (if setxid then
         gid <- getgid ;; r1 <- setgid gid ;;
         if negb (r1 =? 0) then ret true
         else uid <- getuid ;; r2 <- setuid uid ;; ret (negb (r2 =? 0))
       else ret false) ;;
    if failed then ret false
    else
      r3 <- setgid 0 ;;
      regained <- (if negb (r3 =? -1) then ret true
                   else r4 <- setuid 0 ;; ret (negb (r4 =? -1))) ;;
      if regained then ret false else ret true.

(** *** The event loop *)

(** What one callback of the loop can be, as far as the termination and
    exit-code fields are concerned: the liveness pipe of the client, a
    POSIX signal, another handler that ends in [server_terminate] (the
    Escape keybinding, the destruction of the last nested output), or a
    handler that touches neither field. *)
Inductive loop_event :=
| EvLiveness (mask : Z)
| EvSignal (signal : Z)
| EvTerminate
| EvOther.

Definition dispatch (server : gf_server) (ev : loop_event) : gf_server :=
  match ev with
  | EvLiveness mask => sigchld_handler mask server
  | EvSignal signal => handle_signal signal server
  | EvTerminate => server_terminate server
  | EvOther => server
  end.

(** [wl_event_loop_dispatch]: runs the callbacks of every source that is
    ready, even when one of them terminates the display. *)
Definition wl_event_loop_dispatch (batch : list loop_event) (server : gf_server) : gf_server :=
  foldl dispatch server batch.

(** [while (display->run) wl_event_loop_dispatch (...)], over the batches
    of ready callbacks that the run will see.  [None]: the loop is still
    waiting after the last of them. *)
Fixpoint run_loop (batches : list (list loop_event)) (server : gf_server) : option gf_server :=
  match batches with
  | [] => None
  | batch :: rest =>
      let server' := wl_event_loop_dispatch batch server in
      if display_run server' then run_loop rest server' else Some server'
  end.

Definition wl_display_run (batches : list (list loop_event)) (server : gf_server) : option gf_server :=
  run_loop batches (set_display_run true server).

(** *** main *)

Inductive parse_result :=
| ParseOk
| ParseFail       (* usage printed: [-h] or an unknown option *)
| ParseExit.      (* [-v]: [exit (0)] inside [parse_args] *)

Inductive fork_result :=
| ForkFailed
| ForkParent (pid : Z).

(** Everything [main] takes from its environment: the outcome of each
    call it branches on, in the order of the calls. *)
Record env := mkEnv {
  parse_args : parse_result;
  opt_output_mode : gameframe_multi_output_mode;   (* [-m] *)
  opt_allow_vt_switch : bool;                      (* [-s] *)
  xdg_runtime_dir : bool;
  wl_display_create : bool;
  wlr_backend_autocreate : bool;
  process_creds : creds;
  wlr_gles2_renderer_create : bool;
  wlr_renderer_autocreate : bool;
  wlr_allocator_autocreate : bool;
  wlr_output_layout_create : bool;
  wlr_scene_create : bool;
  wlr_compositor_create : bool;
  wlr_subcompositor_create : bool;
  wlr_data_device_manager_create : bool;
  wlr_primary_selection_v1_device_manager_create : bool;
  seat_create : bool;
  wl_display_add_socket_auto : bool;
  wlr_backend_start : bool;
  application_given : bool;      (* [optind < argc] *)
  pipe_ok : bool;
  fork : fork_result;
  set_cloexec_read : bool;
  set_cloexec_write : bool;
  loop_events : list (list loop_event);
  waitpid : Z -> Z;
}.

(** What a run of [main] amounts to: its return value, the credentials
    the client was forked with (if it was), and whether [waitpid] was
    called. *)
Record main_result := mkResult {
  exit_code : Z;
  client : option creds;
  reaped : bool;
}.

(** [spawn_primary_client], in the parent: [SpawnFailed None] is a
    [false] that left [*pid_out] alone, [SpawnFailed (Some pid)] one
    that came after the fork, [Spawned pid] is [true]. *)
Inductive spawn_result :=
| SpawnFailed (pid_out : option Z)
| Spawned (pid : Z).

Definition spawn_primary_client (e : env) : spawn_result :=
  if negb (pipe_ok e) then SpawnFailed None
  else match fork e with
       | ForkFailed => SpawnFailed None
       | ForkParent pid =>
           if negb (set_cloexec_read e) then SpawnFailed (Some pid)
           else if negb (set_cloexec_write e) then SpawnFailed (Some pid)
           else Spawned pid
       end.

(** The [end:] label: [return ret ? ret : app_ret]. *)
Definition at_end (ret app_ret : Z) (client : option creds) (reaped : bool) : option main_result :=
  Some (mkResult (if ret =? 0 then app_ret else ret) client reaped).

(** A step of the setup that fails with [ret = 1; goto end]. *)
Definition or_goto_end (ok : bool) (k : option main_result) : option main_result :=
  if ok then k else at_end 1 0 None false.

(** A step of the setup that fails with [return 1]. *)
Definition or_return_1 (ok : bool) (k : option main_result) : option main_result :=
  if ok then k else Some (mkResult 1 None false).

Definition main (e : env) : option main_result :=
  match parse_args e with
  | ParseExit => Some (mkResult 0 None false)
  | ParseFail => Some (mkResult 1 None false)
  | ParseOk =>
    or_return_1 (xdg_runtime_dir e) (
    or_return_1 (wl_display_create e) (
    or_goto_end (wlr_backend_autocreate e) (
    let '(dropped, c) := drop_permissions (process_creds e) in
    or_goto_end dropped (
    or_goto_end (wlr_gles2_renderer_create e || wlr_renderer_autocreate e) (
    or_goto_end (wlr_allocator_autocreate e) (
    or_goto_end (wlr_output_layout_create e) (
    or_goto_end (wlr_scene_create e) (
    or_goto_end (wlr_compositor_create e) (
    or_goto_end (wlr_subcompositor_create e) (
    or_goto_end (wlr_data_device_manager_create e) (
    or_goto_end (wlr_primary_selection_v1_device_manager_create e) (
    or_goto_end (seat_create e) (
    or_return_1 (wl_display_add_socket_auto e) (
    or_return_1 (wlr_backend_start e) (
    or_goto_end (application_given e) (
    match spawn_primary_client e with
    | SpawnFailed pid_out => at_end 1 0 (match pid_out with Some _ => Some c | None => None end) false
    | Spawned pid =>
        match wl_display_run (loop_events e)
                (server_init (opt_output_mode e) (opt_allow_vt_switch e)) with
        | None => None
        | Some server =>
            if return_app_code server
            then at_end 0 (cleanup_primary_client (waitpid e) pid) (Some c) true
            else at_end 0 0 (Some c) false
        end
    end))))))))))))))))
  end.

(** The exit code that the shell convention gives an outcome. *)
Definition translated (o : wait_outcome) : Z :=
  match o with
  | Exited code => code
  | Signaled sig _ => 128 + sig
  | Stopped _ | Continued => 0
  end.

(** Every step of the setup up to the spawn succeeds. *)
Definition setup_ok (e : env) : bool :=
  match parse_args e with ParseOk => true | _ => false end
  && xdg_runtime_dir e && wl_display_create e && wlr_backend_autocreate e
  && fst (drop_permissions (process_creds e))
  && (wlr_gles2_renderer_create e || wlr_renderer_autocreate e)
  && wlr_allocator_autocreate e && wlr_output_layout_create e
  && wlr_scene_create e && wlr_compositor_create e
  && wlr_subcompositor_create e && wlr_data_device_manager_create e
  && wlr_primary_selection_v1_device_manager_create e && seat_create e
  && wl_display_add_socket_auto e && wlr_backend_start e
  && application_given e.

(** The callbacks that a run of the loop executes: those of every batch
    up to and including the first one that leaves [run] cleared. *)
Fixpoint dispatched (batches : list (list loop_event)) (server : gf_server) : list loop_event :=
  match batches with
  | [] => []
  | batch :: rest =>
      let server' := wl_event_loop_dispatch batch server in
      batch ++ (if display_run server' then dispatched rest server' else [])
  end.

Definition is_liveness (ev : loop_event) : bool :=
  match ev with EvLiveness _ => true | _ => false end.

(** A callback that ends in [wl_display_terminate] on a server that is not
    [terminated]. *)
Definition requests_termination (ev : loop_event) : bool :=
  match ev with
  | EvLiveness _ => true
  | EvSignal signal => (signal =? SIGINT) || (signal =? SIGTERM)
  | EvTerminate => true
  | EvOther => false
  end.

(** Credentials of an ordinary user, of root, and of an ordinary user
    running a setuid-root binary. *)
Definition user_creds : creds := mkCreds 1000 1000 1000 1000 1000 1000.
Definition root_creds : creds := mkCreds 0 0 0 0 0 0.
Definition setuid_root_creds : creds := mkCreds 1000 0 0 1000 1000 1000.

(** An environment in which every step of the setup succeeds, given the
    credentials, the outcome of [pipe] and [fork], the callbacks of the
    loop and the wait status of the client. *)
Definition env_with (c : creds) (pipe : bool) (f : fork_result)
    (events : list (list loop_event)) (status : Z) : env :=
  mkEnv ParseOk GAMEFRAME_MULTI_OUTPUT_MODE_EXTEND false true true true c
    true true true true true true true true true true true true true
    pipe f true true events (fun _ => status).

(** The server as [wl_display_run] finds it in [main]. *)
Definition server_at_run (e : env) : gf_server :=
  set_display_run true (server_init (opt_output_mode e) (opt_allow_vt_switch e)).

End Supervisor.

(** ** view.h and the per-kind adapters (xdg_shell.c, xwayland.c) *)

Inductive gf_view_type :=
| GAMEFRAME_XDG_SHELL_VIEW
| GAMEFRAME_XWAYLAND_VIEW.

Global Instance gf_view_type_eq_dec : EqDecision gf_view_type.
Proof. solve_decision. Defined.

(** [struct gf_view] as embedded at the head of [gf_xdg_shell_view] and
    [gf_xwayland_view].  [view_addr] is the address of the struct, which is
    what [==] on two [struct gf_view *] compares; [native] is the pointer
    field that follows the embedded view: [xdg_toplevel] in an xdg-shell
    view, [xwayland_surface] in an Xwayland view. *)
Record gf_view := mkView {
  view_addr : addr;
  type : gf_view_type;
  native : option addr;
  wlr_surface : option addr;
}.

(** The [parent] field of every [wlr_xdg_toplevel], and of every
    [wlr_xwayland_surface]; an address without entry has a NULL parent. *)
Record toplevels := mkToplevels {
  xdg_parent : gmap addr addr;
  xwayland_parent : gmap addr addr;
}.

(** The loop shared by both adapters,
    [while (t) { if (t->parent == target) return true; t = t->parent; }
     return false;]
    with one unit of fuel per iteration; [None] when the fuel runs out. *)
Fixpoint parent_chain_has (parent_of : gmap addr addr) (fuel : nat)
    (t target : option addr) : option bool :=
  match t with
  | None => Some false
  | Some a =>
      match fuel with
      | O => None
      | S fuel' =>
          if decide (parent_of !! a = target) then Some true
          else parent_chain_has parent_of fuel' (parent_of !! a) target
      end
  end.

Module XdgShell.

(** xdg_shell.c, [is_transient_for]. *)
Definition is_transient_for (h : toplevels) (fuel : nat) (child parent : gf_view) : option bool :=
  if negb (bool_decide (type parent = GAMEFRAME_XDG_SHELL_VIEW)) then Some false
  else
    let xdg_toplevel := native child in
    parent_chain_has (xdg_parent h) fuel xdg_toplevel (native parent).

End XdgShell.

Module Xwayland.

(** Modelled from the spec: the loop of [is_transient_for] in xwayland.c,
    which the source file lacks (it ends after the guard and the
    declarations of the function).  The spec: "walks the parent-chain of
    child's native ancestry; returns true iff parent appears in that
    chain"; here over the [parent] field of [wlr_xwayland_surface]. *)
Definition walk_parents (h : toplevels) (fuel : nat)
    (xwayland_surface parent_surface : option addr) : option bool :=
  parent_chain_has (xwayland_parent h) fuel xwayland_surface parent_surface.

(** xwayland.c, [is_transient_for]: the guard on [parent->type] and the
    reads of [_child->xwayland_surface] and of [_parent] are the
    source's. *)
Definition is_transient_for (h : toplevels) (fuel : nat) (child parent : gf_view) : option bool :=
  if negb (bool_decide (type parent = GAMEFRAME_XDG_SHELL_VIEW)) then Some false
  else
    let xwayland_surface := native child in
    walk_parents h fuel xwayland_surface (native parent).

End Xwayland.

Module View.

(** Modelled from the spec: view.c is missing.  view.h declares
    [view_is_transient_for (child, parent)] next to the table
    [gf_view_impl], whose entry [is_transient_for (child, parent)] each
    adapter fills in; the call goes through the table of [child]. *)
Definition view_is_transient_for (h : toplevels) (fuel : nat) (child parent : gf_view) : option bool :=
  match type child with
  | GAMEFRAME_XDG_SHELL_VIEW => XdgShell.is_transient_for h fuel child parent
  | GAMEFRAME_XWAYLAND_VIEW => Xwayland.is_transient_for h fuel child parent
  end.

(** [a] is reached from [t] by following [parent] one or more times. *)
Inductive ancestor (parent_of : gmap addr addr) : addr -> addr -> Prop :=
| ancestor_parent t a : parent_of !! t = Some a -> ancestor parent_of t a
| ancestor_step t m a :
    parent_of !! t = Some m -> ancestor parent_of m a -> ancestor parent_of t a.

(** The parent pointers form no cycle: some rank decreases along them. *)
Definition acyclic (parent_of : gmap addr addr) (rank : addr -> nat) : Prop :=
  forall t a, parent_of !! t = Some a -> (rank a < rank t)%nat.

(** An application window and a dialog of it, as xdg-shell views and as
    Xwayland views: the toplevel (the surface) at 2 has the one at 1 for
    parent. *)
Definition dialog_world : toplevels := mkToplevels {[ 2%positive := 1%positive ]} {[ 2%positive := 1%positive ]}.

Definition app_view : gf_view := mkView 10 GAMEFRAME_XDG_SHELL_VIEW (Some 1%positive) (Some 100%positive).
Definition dialog_view : gf_view := mkView 20 GAMEFRAME_XDG_SHELL_VIEW (Some 2%positive) (Some 200%positive).

Definition x11_app_view : gf_view := mkView 10 GAMEFRAME_XWAYLAND_VIEW (Some 1%positive) (Some 100%positive).
Definition x11_dialog_view : gf_view := mkView 20 GAMEFRAME_XWAYLAND_VIEW (Some 2%positive) (Some 200%positive).

End View.

(** ** seat.h, seat.c *)

Module Seat.

(** wayland-server-protocol.h, [enum wl_seat_capability]. *)
Definition WL_SEAT_CAPABILITY_POINTER : Z := 1.
Definition WL_SEAT_CAPABILITY_KEYBOARD : Z := 2.
Definition WL_SEAT_CAPABILITY_TOUCH : Z := 4.

(** wlr_keyboard.h, [WLR_MODIFIER_ALT = 1 << 3]; the pressed state of a
    key and of a button; xkbcommon-keysyms.h. *)
Definition WLR_MODIFIER_ALT : Z := 8.
Definition WL_KEYBOARD_KEY_STATE_PRESSED : Z := 1.
Definition WLR_BUTTON_PRESSED : Z := 1.
Definition XKB_KEY_Escape : Z := 0xff1b.
Definition XKB_KEY_XF86Switch_VT_1 : Z := 0x1008FE01.
Definition XKB_KEY_XF86Switch_VT_12 : Z := 0x1008FE0C.

Record gf_keyboard_group := mkGroup {
  wlr_group : addr;
  is_virtual : bool;
}.

(** What [seat->cursor] shows. *)
Inductive cursor_image :=
| CursorUnset
| CursorDefaultXcursor
| CursorClientSurface (surface : option addr).

(** Calls of the focus code into the view adapters. *)
Inductive seat_call :=
| view_activate (view : addr) (activate : bool).

(** [struct gf_seat] with the state of the [wlr_seat] and [wlr_cursor] it
    owns: the device lists hold the address of the device each element
    was made for; [capabilities] is what [wlr_seat_set_capabilities]
    last set; [focused_surface] is
    [seat->seat->keyboard_state.focused_surface]; [seat_keyboard] is
    [wlr_seat_get_keyboard (seat->seat)]. *)
Record gf_seat := mkSeat {
  keyboard_groups : list gf_keyboard_group;
  pointers : list addr;
  touch : list addr;
  capabilities : Z;
  cursor : cursor_image;
  focused_surface : option addr;
  seat_keyboard : option addr;
  seat_calls : list seat_call;
}.

Definition set_keyboard_groups (l : list gf_keyboard_group) (s : gf_seat) : gf_seat :=
  mkSeat l (pointers s) (touch s) (capabilities s) (cursor s)
    (focused_surface s) (seat_keyboard s) (seat_calls s).

Definition set_pointers (l : list addr) (s : gf_seat) : gf_seat :=
  mkSeat (keyboard_groups s) l (touch s) (capabilities s) (cursor s)
    (focused_surface s) (seat_keyboard s) (seat_calls s).

Definition set_touch (l : list addr) (s : gf_seat) : gf_seat :=
  mkSeat (keyboard_groups s) (pointers s) l (capabilities s) (cursor s)
    (focused_surface s) (seat_keyboard s) (seat_calls s).

Definition wlr_seat_set_capabilities (caps : Z) (s : gf_seat) : gf_seat :=
  mkSeat (keyboard_groups s) (pointers s) (touch s) caps (cursor s)
    (focused_surface s) (seat_keyboard s) (seat_calls s).

Definition set_cursor (c : cursor_image) (s : gf_seat) : gf_seat :=
  mkSeat (keyboard_groups s) (pointers s) (touch s) (capabilities s) c
    (focused_surface s) (seat_keyboard s) (seat_calls s).

(** [wlr_seat_keyboard_notify_enter]: the seat's keyboard focus becomes
    [surface]. *)
Definition wlr_seat_keyboard_notify_enter (surface : option addr) (s : gf_seat) : gf_seat :=
  mkSeat (keyboard_groups s) (pointers s) (touch s) (capabilities s) (cursor s)
    surface (seat_keyboard s) (seat_calls s).

Definition seat_emit (c : seat_call) (s : gf_seat) : gf_seat :=
  mkSeat (keyboard_groups s) (pointers s) (touch s) (capabilities s) (cursor s)
    (focused_surface s) (seat_keyboard s) (seat_calls s ++ [c]).

(** *** Capabilities *)

Definition update_capabilities (seat : gf_seat) : gf_seat :=
  let caps := 0 in
  let caps := if negb (wl_list_empty (keyboard_groups seat))
              then Z.lor caps WL_SEAT_CAPABILITY_KEYBOARD else caps in
  let caps := if negb (wl_list_empty (pointers seat))
              then Z.lor caps WL_SEAT_CAPABILITY_POINTER else caps in
  let caps := if negb (wl_list_empty (touch seat))
              then Z.lor caps WL_SEAT_CAPABILITY_TOUCH else caps in
  let seat := wlr_seat_set_capabilities caps seat in
  if Z.land caps WL_SEAT_CAPABILITY_POINTER =? 0
  then set_cursor CursorUnset seat
  else set_cursor CursorDefaultXcursor seat.

(** The handlers below leave out [wlr_cursor_attach_input_device],
    [wlr_cursor_detach_input_device] and [map_input_device_to_output],
    which touch none of the fields of [gf_seat].  [alloc] is whether
    [calloc] returned memory. *)

Definition handle_touch_destroy (t : addr) (seat : gf_seat) : gf_seat :=
  update_capabilities (set_touch (wl_list_remove t (touch seat)) seat).

Definition handle_new_touch (alloc : bool) (wlr_touch : addr) (seat : gf_seat) : gf_seat :=
  if negb alloc then seat
  else update_capabilities (set_touch (wlr_touch :: touch seat) seat).

Definition handle_pointer_destroy (p : addr) (seat : gf_seat) : gf_seat :=
  update_capabilities (set_pointers (wl_list_remove p (pointers seat)) seat).

Definition handle_new_pointer (alloc : bool) (wlr_pointer : addr) (seat : gf_seat) : gf_seat :=
  if negb alloc then seat
  else update_capabilities (set_pointers (wlr_pointer :: pointers seat) seat).

(** [gf_keyboard_group_add].  [accepts g k] is the result of
    [wlr_keyboard_group_add_keyboard (g, k)]; [new_group] is the group
    that [calloc] and [wlr_keyboard_group_create] produce, if both
    succeed. *)
Definition gf_keyboard_group_add (accepts : addr -> addr -> bool) (new_group : option addr)
    (keyboard : addr) (virtual : bool) (seat : gf_seat) : gf_seat :=
  if negb virtual
     && existsb (fun group => negb (is_virtual group) && accepts (wlr_group group) keyboard)
          (keyboard_groups seat)
  then seat
  else match new_group with
       | None => seat
       | Some g =>
           update_capabilities
             (set_keyboard_groups (mkGroup g virtual :: keyboard_groups seat) seat)
       end.

(** [handle_keyboard_destroy]: defined in seat.c, but never added to a
    signal, so no event reaches it. *)
Definition handle_keyboard_destroy (group : gf_keyboard_group) (seat : gf_seat) : gf_seat :=
  update_capabilities
    (set_keyboard_groups
       (filter (fun g => wlr_group g <> wlr_group group) (keyboard_groups seat)) seat).

Definition handle_new_keyboard (accepts : addr -> addr -> bool) (new_group : option addr)
    (wlr_keyboard : addr) (virtual : bool) (seat : gf_seat) : gf_seat :=
  update_capabilities (gf_keyboard_group_add accepts new_group wlr_keyboard virtual seat).

(** An input device of the backend: its address and its type. *)
Inductive input_device :=
| WLR_INPUT_DEVICE_KEYBOARD (a : addr) (virtual : bool)
| WLR_INPUT_DEVICE_POINTER (a : addr)
| WLR_INPUT_DEVICE_TOUCH (a : addr)
| WLR_INPUT_DEVICE_OTHER (a : addr).

(** The results of the allocations of one [handle_new_input]. *)
Record alloc_env := mkAlloc {
  calloc_ok : bool;
  group_accepts : addr -> addr -> bool;
  new_group : option addr;
}.

Definition handle_new_input (e : alloc_env) (device : input_device) (seat : gf_seat) : gf_seat :=
  match device with
  | WLR_INPUT_DEVICE_KEYBOARD k virtual =>
      handle_new_keyboard (group_accepts e) (new_group e) k virtual seat
  | WLR_INPUT_DEVICE_POINTER p => handle_new_pointer (calloc_ok e) p seat
  | WLR_INPUT_DEVICE_TOUCH t => handle_new_touch (calloc_ok e) t seat
  | WLR_INPUT_DEVICE_OTHER _ => seat
  end.

(** The [destroy] signal of an input device runs the listeners that the
    seat added to it: [handle_pointer_destroy] for a pointer that has an
    element in [seat->pointers], [handle_touch_destroy] likewise, and
    none for a keyboard. *)
Definition input_device_destroy (device : input_device) (seat : gf_seat) : gf_seat :=
  match device with
  | WLR_INPUT_DEVICE_KEYBOARD _ _ => seat
  | WLR_INPUT_DEVICE_POINTER p =>
      if bool_decide (p ∈ pointers seat) then handle_pointer_destroy p seat else seat
  | WLR_INPUT_DEVICE_TOUCH t =>
      if bool_decide (t ∈ touch seat) then handle_touch_destroy t seat else seat
  | WLR_INPUT_DEVICE_OTHER _ => seat
  end.

(** The capability set that the three lists call for. *)
Definition derived_capabilities (seat : gf_seat) : Z :=
  Z.lor (Z.lor (if wl_list_empty (keyboard_groups seat) then 0 else WL_SEAT_CAPABILITY_KEYBOARD)
               (if wl_list_empty (pointers seat) then 0 else WL_SEAT_CAPABILITY_POINTER))
        (if wl_list_empty (touch seat) then 0 else WL_SEAT_CAPABILITY_TOUCH).

(** The capabilities and the cursor image are those that the device lists
    call for. *)
Definition capabilities_derived (seat : gf_seat) : Prop :=
  capabilities seat = derived_capabilities seat /\
  cursor seat = if wl_list_empty (pointers seat) then CursorUnset else CursorDefaultXcursor.

(** The seat as [seat_create] returns it. *)
Definition seat_create : gf_seat :=
  update_capabilities (mkSeat [] [] [] 0 CursorDefaultXcursor None None []).

Inductive seat_event :=
| DeviceAdded (e : alloc_env) (device : input_device)
| DeviceRemoved (device : input_device).

Definition seat_step (seat : gf_seat) (ev : seat_event) : gf_seat :=
  match ev with
  | DeviceAdded e device => handle_new_input e device seat
  | DeviceRemoved device => input_device_destroy device seat
  end.

(** *** Keyboard events *)

Definition handle_keybinding (server : gf_server) (sym : Z) : bool * gf_server :=
  if sym =? XKB_KEY_Escape then (true, server_terminate server)
  else if allow_vt_switch server
          && (XKB_KEY_XF86Switch_VT_1 <=? sym) && (sym <=? XKB_KEY_XF86Switch_VT_12)
  then
    let server :=
      if backend_is_multi server then
        match session server with
        | Some _ =>
            let vt := sym - XKB_KEY_XF86Switch_VT_1 + 1 in
            emit (wlr_session_change_vt vt) server
        | None => server
        end
      else server in
    (true, emit wlr_idle_notifier_v1_notify_activity server)
  else (false, server).

Record wlr_keyboard_key_event := mkKeyEvent {
  time_msec : Z;
  keycode : Z;
  state : Z;
}.

(** [handle_key_event].  [xkb_state_key_get_syms] is the lookup in the
    keyboard's xkb state, [modifiers] the result of
    [wlr_keyboard_get_modifiers].  The key code is a [uint32_t], and so
    is its sum with 8.  The loop assigns [handled] at every symbol. *)
Definition handle_key_event (xkb_state_key_get_syms : Z -> list Z) (modifiers : Z)
    (event : wlr_keyboard_key_event) (server : gf_server) : gf_server :=
  let keycode := to_uint32 (keycode event + 8) in
  let syms := xkb_state_key_get_syms keycode in
  let handled := false in
  let '(handled, server) :=
    if negb (Z.land modifiers WLR_MODIFIER_ALT =? 0)
       && (state event =? WL_KEYBOARD_KEY_STATE_PRESSED)
    then foldl (fun '(_, server) sym => handle_keybinding server sym) (handled, server) syms
    else (handled, server) in
  let server :=
    if negb handled then
      emit (wlr_seat_keyboard_notify_key (time_msec event) (Seat.keycode event) (state event))
        (emit wlr_seat_set_keyboard server)
    else server in
  emit wlr_idle_notifier_v1_notify_activity server.

(** The event reached the client: the handler called
    [wlr_seat_keyboard_notify_key]. *)
Definition is_notify_key (c : call) : bool :=
  match c with wlr_seat_keyboard_notify_key _ _ _ => true | _ => false end.

Definition forwarded (before after : gf_server) : bool :=
  existsb is_notify_key (drop (length (calls before)) (calls after)).

(** The Alt modifier is held and the key goes down. *)
Definition alt_press (modifiers : Z) (event : wlr_keyboard_key_event) : bool :=
  negb (Z.land modifiers WLR_MODIFIER_ALT =? 0)
  && (state event =? WL_KEYBOARD_KEY_STATE_PRESSED).

(** A server in the loop, with VT switching allowed or not, on a backend
    that is a multi-backend with a session or is not. *)
Definition running_server (vt multi : bool) : gf_server :=
  mkServer true false multi (if multi then Some 1%positive else None) [] [] false
    GAMEFRAME_MULTI_OUTPUT_MODE_EXTEND vt false wl_zeroed [].

(** A symbol in the range of the VT-switch keys. *)
Definition is_vt_switch (sym : Z) : bool :=
  (XKB_KEY_XF86Switch_VT_1 <=? sym) && (sym <=? XKB_KEY_XF86Switch_VT_12).

(** A symbol bound to an action on this server: Escape, and the VT-switch
    symbols when VT switching is permitted. *)
Definition is_bound (server : gf_server) (sym : Z) : bool :=
  (sym =? XKB_KEY_Escape) || (allow_vt_switch server && is_vt_switch sym).

(** The backend is a multi-backend and the server has a session. *)
Definition multi_session (server : gf_server) : bool :=
  backend_is_multi server && bool_decide (session server <> None).

Definition vt_of_call (c : call) : option Z :=
  match c with wlr_session_change_vt vt => Some vt | _ => None end.

(** The virtual terminals that the handler asked the session to change
    to, in order. *)
Definition vt_changes (before after : gf_server) : list Z :=
  omap vt_of_call (drop (length (calls before)) (calls after)).

(** *** Focus *)

Section Focus.

(** The parent pointers of the toplevels, the fuel for the walk along
    them, and [view_from_wlr_surface] of the missing view.c, which
    gives the view that a surface belongs to. *)
Variable h : toplevels.
Variable fuel : nat.
Variable view_from_wlr_surface : addr -> option gf_view.

Definition seat_get_focus (seat : gf_seat) : option gf_view :=
  match focused_surface seat with
  | None => None
  | Some surface => view_from_wlr_surface surface
  end.

Definition seat_set_focus (seat : gf_seat) (view : gf_view) : gf_seat :=
  let surface := wlr_surface view in
  let seat :=
    match seat_keyboard seat with
    | Some _ => wlr_seat_keyboard_notify_enter surface seat
    | None => seat
    end in
  seat_emit (view_activate (view_addr view) true) seat.

(** [==] on two [struct gf_view *]. *)
Definition same_view (a b : option gf_view) : bool :=
  bool_decide (view_addr <$> a = view_addr <$> b).

(** [press_cursor_button]; [view] is the result of [desktop_view_at]
    at the position of the press.  [None]: the handler does not
    return, because [view_is_transient_for] is handed a NULL [current]
    and reads its table, or because the walk outlasts the fuel. *)
Definition press_cursor_button (seat : gf_seat) (state : Z) (view : option gf_view)
    : option gf_seat :=
  if state =? WLR_BUTTON_PRESSED then
    let current := seat_get_focus seat in
    if same_view view current then Some seat
    else
      match view with
      | None => Some seat
      | Some v =>
          match current with
          | None => None
          | Some cur =>
              match View.view_is_transient_for h fuel cur v with
              | None => None
              | Some transient =>
                  if negb transient then Some (seat_set_focus seat v) else Some seat
              end
          end
      end
  else Some seat.

End Focus.


(** The surfaces of [View.app_view] and [View.dialog_view], and a seat with
    a keyboard whose focus is on the application window. *)
Definition surface_view (surface : addr) : option gf_view :=
  if decide (surface = 100%positive) then Some View.app_view
  else if decide (surface = 200%positive) then Some View.dialog_view
  else None.

Definition seat_on_app : gf_seat :=
  mkSeat [mkGroup 1 false] [3%positive] [] 3 CursorDefaultXcursor (Some 100%positive) (Some 1%positive) [].


End Seat.

(** ** output.c *)

Module Output.

Definition set_enabled (b : bool) (o : gf_output) : gf_output :=
  mkOutput (wlr_output o) (scene_output o) (is_wl o) (is_x11 o) b.

(** [wl_list_remove (&output->link)]: unlink the element of the output
    whose [wlr_output] is [a]. *)
Fixpoint unlink (a : addr) (l : list gf_output) : list gf_output :=
  match l with
  | [] => []
  | o :: l' => if decide (wlr_output o = a) then l' else o :: unlink a l'
  end.

(** A successful [wlr_output_commit_state] with the enabled flag [b]:
    the [wlr_output] at [a] takes the flag. *)
Definition commit_enabled (a : addr) (b : bool) (server : gf_server) : gf_server :=
  set_outputs
    (map (fun o => if decide (wlr_output o = a) then set_enabled b o else o) (outputs server))
    server.

Definition update_output_manager_config (server : gf_server) : gf_server :=
  emit wlr_output_manager_v1_set_configuration server.

(** [output_layout_add_auto]; [None] when the assertion on
    [output->scene_output] fails. *)
Definition output_layout_add_auto (output : gf_output) (server : gf_server) : option gf_server :=
  match scene_output output with
  | None => None
  | Some _ =>
      Some (if bool_decide (wlr_output output ∈ output_layout server) then server
            else set_output_layout (output_layout server ++ [wlr_output output]) server)
  end.

Definition output_layout_remove (output : gf_output) (server : gf_server) : gf_server :=
  set_output_layout (filter (fun a => a <> wlr_output output) (output_layout server)) server.

(** [output_enable]; [commit_ok] is the result of
    [wlr_output_commit_state]. *)
Definition output_enable (commit_ok : bool) (output : gf_output) (server : gf_server)
    : option gf_server :=
  let server := emit (wlr_output_commit_state (wlr_output output) true) server in
  server ←
    (if commit_ok
     then output_layout_add_auto output (commit_enabled (wlr_output output) true server)
     else Some server);
  Some (update_output_manager_config server).

Section Backends.

(** Whether wlroots was built with its X11 backend. *)
Variable WLR_HAS_X11_BACKEND : bool.

Definition is_nested_output (output : gf_output) : bool :=
  if is_wl output then true
  else if WLR_HAS_X11_BACKEND && is_x11 output then true
  else false.

Definition output_destroy (commit_ok : bool) (output : gf_output) (server : gf_server)
    : option gf_server :=
  let was_nested_output := is_nested_output output in
  let server := set_outputs (unlink (wlr_output output) (outputs server)) server in
  let server := output_layout_remove output server in
  if wl_list_empty (outputs server) && was_nested_output then
    Some (server_terminate server)
  else if bool_decide (output_mode server = GAMEFRAME_MULTI_OUTPUT_MODE_LAST)
          && negb (wl_list_empty (outputs server)) then
    match outputs server with
    | [] => Some server
    | prev :: _ =>
        server ← output_enable commit_ok prev server;
        Some (emit view_position_all server)
    end
  else Some server.

(** What the backend and the allocator answer during one
    [handle_new_output]. *)
Record new_output_env := mkNewOutputEnv {
  init_render_ok : bool;
  calloc_ok : bool;
  new_scene_output : option addr;
  new_commit_ok : bool;
}.

(** [handle_new_output] for the [wlr_output] at [a].  The choice of a
    mode only fills the state that is committed and is left out, as
    are the fullscreen request and the loading of the cursor theme. *)
Definition handle_new_output (e : new_output_env) (a : addr) (wl x11 : bool)
    (server : gf_server) : option gf_server :=
  if negb (init_render_ok e) then Some server
  else if negb (calloc_ok e) then Some server
  else
    let others := outputs server in
    let output := mkOutput a None wl x11 false in
    let server := set_outputs (output :: others) server in
    match new_scene_output e with
    | None => Some server
    | Some so =>
        (* [output->scene_output = so], on the element just inserted *)
        let output := mkOutput a (Some so) wl x11 false in
        let server := set_outputs (output :: others) server in
        let server := emit (wlr_output_commit_state a true) server in
        server ←
          (if new_commit_ok e
           then output_layout_add_auto output (commit_enabled a true server)
           else Some server);
        Some (update_output_manager_config (emit view_position_all server))
    end.

(** Hotplug and unplug as the backend reports them.  The [destroy]
    signal of a [wlr_output] runs [handle_output_destroy] when
    [handle_new_output] added that listener, that is when the output
    has an element in [server->outputs]. *)
Inductive output_event :=
| NewOutput (e : new_output_env) (a : addr) (wl x11 : bool)
| OutputDestroyed (commit_ok : bool) (a : addr).

Definition find_output (a : addr) (l : list gf_output) : option gf_output :=
  List.find (fun o => bool_decide (wlr_output o = a)) l.

Definition output_step (server : gf_server) (ev : output_event) : option gf_server :=
  match ev with
  | NewOutput e a wl x11 => handle_new_output e a wl x11 server
  | OutputDestroyed commit_ok a =>
      match find_output a (outputs server) with
      | Some output => output_destroy commit_ok output server
      | None => Some server
      end
  end.

Fixpoint output_run (server : gf_server) (evs : list output_event) : option gf_server :=
  match evs with
  | [] => Some server
  | ev :: evs' => server ← output_step server ev; output_run server evs'
  end.

(** The outputs that have been added and not destroyed since, oldest
    first. *)
Fixpoint live_outputs (acc : list addr) (evs : list output_event) : list addr :=
  match evs with
  | [] => acc
  | NewOutput e a _ _ :: evs' =>
      live_outputs (if init_render_ok e && calloc_ok e then acc ++ [a] else acc) evs'
  | OutputDestroyed _ a :: evs' =>
      live_outputs (filter (fun b => b <> a) acc) evs'
  end.

(** The backend announces no output that is live already. *)
Fixpoint fresh_outputs (acc : list addr) (evs : list output_event) : bool :=
  match evs with
  | [] => true
  | NewOutput e a _ _ :: evs' =>
      negb (bool_decide (a ∈ acc))
      && fresh_outputs (if init_render_ok e && calloc_ok e then acc ++ [a] else acc) evs'
  | OutputDestroyed _ a :: evs' =>
      fresh_outputs (filter (fun b => b <> a) acc) evs'
  end.

End Backends.

(** The output that [output_destroy] of [output] finds first in the list,
    if there is one, has its scene output. *)
Definition promoted_has_scene_output (output : gf_output) (server : gf_server) : bool :=
  match unlink (wlr_output output) (outputs server) with
  | prev :: _ => match scene_output prev with Some _ => true | None => false end
  | [] => true
  end.

(** The list of outputs holds the live outputs, newest first, each once;
    the server is not [terminated] and keeps its output mode. *)
Definition outputs_are (mode : gameframe_multi_output_mode) (acc : list addr)
    (server : gf_server) : Prop :=
  map wlr_output (outputs server) = reverse acc /\ NoDup acc /\
  terminated server = false /\ output_mode server = mode.

(** *** Output configuration requests *)

(** What the collaborators answer during one [output_config_apply]:
    [build_state] is the array of [wlr_backend_output_state] (the output
    of each), or NULL. *)
Record config_env := mkConfigEnv {
  build_state : option (list addr);
  prepare_ok : bool;
  scene_build_ok : addr -> bool;
  backend_commit_ok : bool;
}.

(** The loop of [output_config_apply] over the states; [None] when
    [backend_state->output->data] is NULL.  The boolean is false when a
    [wlr_scene_output_build_state] failed, which ends the loop. *)
Fixpoint build_states (e : config_env) (states : list addr) (server : gf_server)
    : option (bool * gf_server) :=
  match states with
  | [] => Some (true, server)
  | a :: rest =>
      match List.find (fun o => bool_decide (wlr_output o = a)) (outputs server) with
      | None => None
      | Some output =>
          let server := emit (wlr_scene_output_build_state a) server in
          if negb (scene_build_ok e a) then Some (false, server)
          else build_states e rest server
      end
  end.

Definition output_config_apply (e : config_env) (test_only : bool) (server : gf_server)
    : option (bool * gf_server) :=
  match build_state e with
  | None => Some (false, server)
  | Some states =>
      let server := emit wlr_output_swapchain_manager_prepare server in
      let ok := prepare_ok e in
      if negb ok || test_only then Some (ok, server)
      else
        '(built, server) ← build_states e states server;
        if negb built then Some (false, server)
        else
          let server := emit wlr_backend_commit server in
          let ok := backend_commit_ok e in
          Some (ok, emit wlr_output_swapchain_manager_finish server)
  end.

Definition handle_output_manager_apply (e : config_env) (config : addr) (server : gf_server)
    : option gf_server :=
  '(ok, server) ← output_config_apply e false server;
  Some (emit (wlr_output_configuration_v1_send_succeeded config) server).

Definition handle_output_manager_test (e : config_env) (config : addr) (server : gf_server)
    : option gf_server :=
  '(ok, server) ← output_config_apply e true server;
  Some (emit (wlr_output_configuration_v1_send_succeeded config) server).

(** Three nested outputs A = 1, B = 2 and C = 3, hotplugged in this order
    on a server in [last] mode, and the server that results. *)
Definition hotplug_ok (so : addr) : new_output_env :=
  mkNewOutputEnv true true (Some so) true.

Definition three_outputs : list output_event :=
  [NewOutput (hotplug_ok 11) 1 true false;
   NewOutput (hotplug_ok 12) 2 true false;
   NewOutput (hotplug_ok 13) 3 true false].

Definition last_mode_server : gf_server :=
  set_display_run true (server_init GAMEFRAME_MULTI_OUTPUT_MODE_LAST false).

Definition three_outputs_server : gf_server :=
  Eval vm_compute in
    default last_mode_server (output_run false last_mode_server three_outputs).

Definition output_C : gf_output := mkOutput 3 (Some 13%positive) true false true.

(** Three outputs again, where the backend refused the commit that was
    to enable B at its hotplug, and the server that results. *)
Definition hotplug_refused (so : addr) : new_output_env :=
  mkNewOutputEnv true true (Some so) false.

Definition refused_outputs : list output_event :=
  [NewOutput (hotplug_ok 11) 1 true false;
   NewOutput (hotplug_refused 12) 2 true false;
   NewOutput (hotplug_ok 13) 3 true false].

Definition refused_outputs_server : gf_server :=
  Eval vm_compute in
    default last_mode_server (output_run false last_mode_server refused_outputs).

(** A server with the single output 1, and a configuration request for it
    whose state builds and prepares but whose commit the backend
    refuses. *)
Definition one_output_server : gf_server :=
  Eval vm_compute in
    default last_mode_server
      (output_run false last_mode_server [NewOutput (hotplug_ok 11) 1 true false]).

Definition refused_commit : config_env :=
  mkConfigEnv (Some [1%positive]) true (fun _ => true) false.

End Output.

(** ** idle_inhibit_v1.c *)

Module IdleInhibit.

Definition idle_inhibit_v1_check_active (server : gf_server) : gf_server :=
  let inhibited := negb (wl_head_empty (inhibitors server)) in
  emit (wlr_idle_notifier_v1_set_inhibited inhibited) (set_idle_inhibited inhibited server).

(** [handle_destroy] of the inhibitor at [inhibitor].  The listener
    exists only for an inhibitor that [handle_idle_inhibitor_v1_new]
    linked; the [link] of any other is the zeroed memory of [calloc], on
    which [wl_list_remove] writes through NULL ([None]). *)
Definition handle_destroy (inhibitor : addr) (server : gf_server) : option gf_server :=
  match inhibitors server with
  | wl_zeroed => None
  | wl_linked l =>
      let server := set_inhibitors (wl_linked (wl_list_remove inhibitor l)) server in
      Some (idle_inhibit_v1_check_active server)
  end.

(** [handle_idle_inhibitor_v1_new]; [alloc] is the address that [calloc]
    returns, if any.  [None]: the handler does not return. *)
Definition handle_idle_inhibitor_v1_new (alloc : option addr) (server : gf_server)
    : option gf_server :=
  match alloc with
  | None => Some server
  | Some inhibitor =>
      head ← wl_head_insert (inhibitors server) inhibitor;
      let server := set_inhibitors head server in
      Some (idle_inhibit_v1_check_active server)
  end.

(** A new inhibitor of a client, and the destruction of one that the
    server tracks. *)
Inductive inhibit_event :=
| InhibitorNew (alloc : option addr)
| InhibitorDestroy (inhibitor : addr).

Definition inhibit_step (server : gf_server) (ev : inhibit_event) : option gf_server :=
  match ev with
  | InhibitorNew alloc => handle_idle_inhibitor_v1_new alloc server
  | InhibitorDestroy inhibitor =>
      if bool_decide (inhibitor ∈ wl_head_elements (inhibitors server))
      then handle_destroy inhibitor server
      else Some server
  end.

Fixpoint inhibit_run (server : gf_server) (evs : list inhibit_event) : option gf_server :=
  match evs with
  | [] => Some server
  | ev :: evs' => server ← inhibit_step server ev; inhibit_run server evs'
  end.

(** The values pushed to the idle notifier by the calls after the first
    [n]. *)
Definition pushed_since (n : nat) (server : gf_server) : list bool :=
  omap (fun c => match c with wlr_idle_notifier_v1_set_inhibited b => Some b | _ => None end)
    (drop n (calls server)).

(** The server of [main] had it called [wl_list_init] on
    [server.inhibitors] as it does on [server.views] and
    [server.outputs]. *)
Definition server_with_inhibitors_init (mode : gameframe_multi_output_mode) (vt : bool)
    : gf_server :=
  set_inhibitors (wl_linked []) (server_init mode vt).

End IdleInhibit.

(** ** main.c: descriptor flags *)

Module Fd.

(** <fcntl.h>, [FD_CLOEXEC]. *)
Definition FD_CLOEXEC : Z := 1.

(** [fcntl (fd, F_GETFD)] over the table of the flags of the open
    descriptors: the flags, or -1 for a descriptor that is not open. *)
Definition fcntl_getfd (fds : gmap Z Z) (fd : Z) : Z :=
  match fds !! fd with Some flags => flags | None => -1 end.

(** [fcntl (fd, F_SETFD, flags)]. *)
Definition fcntl_setfd (fds : gmap Z Z) (fd flags : Z) : Z * gmap Z Z :=
  match fds !! fd with
  | Some _ => (0, <[fd := flags]> fds)
  | None => (-1, fds)
  end.

(** main.c, [set_cloexec]. *)
Definition set_cloexec (fds : gmap Z Z) (fd : Z) : bool * gmap Z Z :=
  let flags := fcntl_getfd fds fd in
  if flags =? -1 then (false, fds)
  else
    let flags := Z.lor flags FD_CLOEXEC in
    let '(r, fds) := fcntl_setfd fds fd flags in
    if r =? -1 then (false, fds) else (true, fds).

End Fd.

(** ** main.c: environments of failing runs *)

Module SupervisorCases.
Import Cred Supervisor.

(** A run without XDG_RUNTIME_DIR, and a run in which the close-on-exec
    flag of the read end of the pipe cannot be set. *)
Definition env_no_runtime_dir : env :=
  mkEnv ParseOk GAMEFRAME_MULTI_OUTPUT_MODE_EXTEND false false true true user_creds
    true true true true true true true true true true true true true
    true (ForkParent 42) true true [[EvLiveness 4]] (fun _ => 0).

Definition env_cloexec_fails : env :=
  mkEnv ParseOk GAMEFRAME_MULTI_OUTPUT_MODE_EXTEND false true true true user_creds
    true true true true true true true true true true true true true
    true (ForkParent 42) false true [[EvLiveness 4]] (fun _ => 0).

End SupervisorCases.

(** ** seat.c: the remaining pointer and cursor handlers *)

Module SeatPointer.
Import Seat.

(** seat.c, [handle_virtual_pointer]; the copy of the suggested output's
    name only feeds [map_input_device_to_output]. *)
Definition handle_virtual_pointer (alloc : bool) (wlr_pointer : addr) (seat : gf_seat) : gf_seat :=
  update_capabilities (handle_new_pointer alloc wlr_pointer seat).

(** seat.c, [handle_request_set_cursor]: [focused_client] is
    [seat->seat->pointer_state.focused_client], [seat_client] and
    [surface] come with the event. *)
Definition handle_request_set_cursor (focused_client seat_client surface : option addr)
    (seat : gf_seat) : gf_seat :=
  if bool_decide (seat_client = focused_client)
  then set_cursor (CursorClientSurface surface) seat
  else seat.

(** Calls of the pointer handlers into the seat and the idle notifier. *)
Inductive pointer_call :=
| notify_activity
| wlr_seat_pointer_notify_button (time_msec button state : Z)
| wlr_seat_pointer_notify_frame.

Section Pointer.

(** Cursor positions and motion deltas are opaque: [wlr_cursor_move] and
    [wlr_cursor_warp_absolute] compute the new position of the cursor,
    [desktop_view_at] is the hit-test at a position. *)
Variables position delta absolute : Type.
Variable wlr_cursor_move : position -> delta -> position.
Variable wlr_cursor_warp_absolute : position -> absolute -> position.
Variable desktop_view_at : position -> option gf_view.
Variable h : toplevels.
Variable fuel : nat.
Variable view_from_wlr_surface : addr -> option gf_view.

(** The seat with the position of its cursor and the log of the calls of
    the pointer handlers. *)
Record pointer_state := mkPointer {
  pseat : gf_seat;
  cursor_at : position;
  pointer_calls : list pointer_call;
}.

Definition handle_cursor_motion_relative (d : delta) (st : pointer_state) : option pointer_state :=
  let at' := wlr_cursor_move (cursor_at st) d in
  let calls := pointer_calls st ++ [notify_activity] in
  seat ← press_cursor_button h fuel view_from_wlr_surface (pseat st)
            WL_KEYBOARD_KEY_STATE_PRESSED (desktop_view_at at');
  Some (mkPointer seat at' calls).

Definition handle_cursor_motion_absolute (a : absolute) (st : pointer_state) : option pointer_state :=
  let at' := wlr_cursor_warp_absolute (cursor_at st) a in
  let calls := pointer_calls st ++ [notify_activity] in
  seat ← press_cursor_button h fuel view_from_wlr_surface (pseat st)
            WL_KEYBOARD_KEY_STATE_PRESSED (desktop_view_at at');
  Some (mkPointer seat at' calls).

Definition handle_cursor_button (time_msec button state : Z) (st : pointer_state) : pointer_state :=
  mkPointer (pseat st) (cursor_at st)
    (pointer_calls st ++ [wlr_seat_pointer_notify_button time_msec button state;
                          notify_activity]).

Definition handle_cursor_frame (st : pointer_state) : pointer_state :=
  mkPointer (pseat st) (cursor_at st) (pointer_calls st ++ [wlr_seat_pointer_notify_frame]).

End Pointer.

(** A pointer on a line of integer positions, with the application window
    of [View.dialog_world] left of 100 and its dialog from 100 on. *)
Definition line_view_at (x : Z) : option gf_view :=
  if x <? 100 then Some View.app_view else Some View.dialog_view.

End SeatPointer.

(** ** seat.c: the hit-test *)

Module Scene.

Inductive wlr_scene_node_type :=
| WLR_SCENE_NODE_TREE
| WLR_SCENE_NODE_RECT
| WLR_SCENE_NODE_BUFFER.

Global Instance wlr_scene_node_type_eq_dec : EqDecision wlr_scene_node_type.
Proof. solve_decision. Defined.

(** [struct wlr_scene_node]: [node_parent] is the node of
    [node->parent], [node_data] is [node->data] read as a view, and
    [node_surface] is the surface of
    [wlr_scene_surface_try_from_buffer] on a buffer node. *)
Record wlr_scene_node := mkNode {
  node_type : wlr_scene_node_type;
  node_parent : option addr;
  node_data : option gf_view;
  node_surface : option addr;
}.

(** What [desktop_view_at] does: return a view with [*surface] set,
    return NULL, or fail its assertion; [OutOfFuel] when the walk is cut
    short. *)
Inductive view_at :=
| ViewAt (view : gf_view) (surface : addr)
| NoViewAt
| AssertionFailed
| OutOfFuel.

(** The loop of [desktop_view_at],
    [while (!node->data) { if (!node->parent) { node = NULL; break; }
       node = &node->parent->node; }],
    one unit of fuel per step to the parent. *)
Fixpoint node_with_data (nodes : addr -> wlr_scene_node) (fuel : nat) (node : addr)
    : option (option gf_view) :=
  match node_data (nodes node) with
  | Some view => Some (Some view)
  | None =>
      match node_parent (nodes node) with
      | None => Some None
      | Some parent =>
          match fuel with
          | O => None
          | S fuel' => node_with_data nodes fuel' parent
          end
      end
  end.

(** seat.c, [desktop_view_at]; [hit] is the result of
    [wlr_scene_node_at]. *)
Definition desktop_view_at (nodes : addr -> wlr_scene_node) (fuel : nat) (hit : option addr)
    : view_at :=
  match hit with
  | None => NoViewAt
  | Some node =>
      if negb (bool_decide (node_type (nodes node) = WLR_SCENE_NODE_BUFFER)) then NoViewAt
      else
        match node_surface (nodes node) with
        | None => NoViewAt
        | Some surface =>
            match node_with_data nodes fuel node with
            | None => OutOfFuel
            | Some None => AssertionFailed
            | Some (Some view) => ViewAt view surface
            end
        end
  end.

(** [view] is the data of the nearest node with data on the way from
    [node] up to the root. *)
Inductive nearest_data (nodes : addr -> wlr_scene_node) : addr -> gf_view -> Prop :=
| nearest_here node view :
    node_data (nodes node) = Some view -> nearest_data nodes node view
| nearest_above node parent view :
    node_data (nodes node) = None -> node_parent (nodes node) = Some parent ->
    nearest_data nodes parent view -> nearest_data nodes node view.

(** The parent pointers of the scene form no cycle. *)
Definition tree_like (nodes : addr -> wlr_scene_node) (rank : addr -> nat) : Prop :=
  forall node parent, node_parent (nodes node) = Some parent -> (rank parent < rank node)%nat.

(** A scene of three nodes: the tree 1 of [View.app_view], a subsurface
    tree 2 under it, and the buffer 3 of a surface under that. *)
Definition small_scene (node : addr) : wlr_scene_node :=
  if decide (node = 3%positive) then mkNode WLR_SCENE_NODE_BUFFER (Some 2%positive) None (Some 100%positive)
  else if decide (node = 2%positive) then mkNode WLR_SCENE_NODE_TREE (Some 1%positive) None None
  else mkNode WLR_SCENE_NODE_TREE None (Some View.app_view) None.

End Scene.

(** ** xdg_shell.c: primary views and popups *)

Module XdgPopup.

(** xdg_shell.c, [is_primary]: [None] when [xdg_toplevel] is NULL and the
    read of its [parent] faults. *)
Definition is_primary (h : toplevels) (view : gf_view) : option bool :=
  match native view with
  | None => None
  | Some xdg_toplevel => Some (bool_decide (xdg_parent h !! xdg_toplevel = None))
  end.

Inductive wlr_xdg_surface_role :=
| WLR_XDG_SURFACE_ROLE_NONE
| WLR_XDG_SURFACE_ROLE_TOPLEVEL
| WLR_XDG_SURFACE_ROLE_POPUP.

(** [struct wlr_xdg_surface]: its role, its [data] (the view of a
    toplevel, set by [handle_new_xdg_toplevel]) and, for a popup, the
    [parent] surface of [xdg_surface->popup]. *)
Record wlr_xdg_surface := mkXdgSurface {
  role : wlr_xdg_surface_role;
  data : option gf_view;
  popup_parent : option addr;
}.

(** xdg_shell.c, [popup_get_view], from [popup->parent] on.
    [xdg_surface_of] is [wlr_xdg_surface_try_from_wlr_surface]; one unit
    of fuel per popup passed; the outer [None] is the fuel running out,
    the inner one the NULL result. *)
Fixpoint popup_get_view (xdg_surface_of : addr -> option wlr_xdg_surface) (fuel : nat)
    (parent : option addr) : option (option gf_view) :=
  match parent with
  | None => Some None
  | Some surface =>
      match xdg_surface_of surface with
      | None => Some None
      | Some xdg_surface =>
          match role xdg_surface with
          | WLR_XDG_SURFACE_ROLE_TOPLEVEL => Some (data xdg_surface)
          | WLR_XDG_SURFACE_ROLE_NONE => Some None
          | WLR_XDG_SURFACE_ROLE_POPUP =>
              match fuel with
              | O => None
              | S fuel' => popup_get_view xdg_surface_of fuel' (popup_parent xdg_surface)
              end
          end
      end
  end.

(** The toplevel surface that a chain of popup parents ends in. *)
Inductive popup_root (xdg_surface_of : addr -> option wlr_xdg_surface)
    : addr -> wlr_xdg_surface -> Prop :=
| popup_root_toplevel surface x :
    xdg_surface_of surface = Some x -> role x = WLR_XDG_SURFACE_ROLE_TOPLEVEL ->
    popup_root xdg_surface_of surface x
| popup_root_popup surface x parent root :
    xdg_surface_of surface = Some x -> role x = WLR_XDG_SURFACE_ROLE_POPUP ->
    popup_parent x = Some parent -> popup_root xdg_surface_of parent root ->
    popup_root xdg_surface_of surface root.

(** The parents of the popups form no cycle. *)
Definition popups_nest (xdg_surface_of : addr -> option wlr_xdg_surface) (rank : addr -> nat)
    : Prop :=
  forall surface x parent,
    xdg_surface_of surface = Some x -> role x = WLR_XDG_SURFACE_ROLE_POPUP ->
    popup_parent x = Some parent -> (rank parent < rank surface)%nat.

(** The toplevel surface 100 of [View.app_view], a popup surface 101 on
    it and a popup surface 102 on that popup. *)
Definition menu_surfaces (surface : addr) : option wlr_xdg_surface :=
  if decide (surface = 100%positive)
  then Some (mkXdgSurface WLR_XDG_SURFACE_ROLE_TOPLEVEL (Some View.app_view) None)
  else if decide (surface = 101%positive)
  then Some (mkXdgSurface WLR_XDG_SURFACE_ROLE_POPUP None (Some 100%positive))
  else if decide (surface = 102%positive)
  then Some (mkXdgSurface WLR_XDG_SURFACE_ROLE_POPUP None (Some 101%positive))
  else None.

End XdgPopup.

(** ** output.c: the mode of a new output *)

Module OutputMode.

(** The mode that the [wlr_output_state] of [handle_new_output] carries
    (its enabled flag is set throughout). *)
Inductive mode_state :=
| ModeUnset
| ModeCustom (width height refresh : Z)
| ModeOf (mode : addr).

Section Select.

(** [wlr_output_test_state] on the state with a given mode. *)
Variable wlr_output_test_state : mode_state -> bool.

(** The [wl_list_for_each] over [wlr_output->modes]. *)
Fixpoint try_modes (preferred_mode : option addr) (modes : list addr) (state : mode_state)
    : mode_state :=
  match modes with
  | [] => state
  | mode :: rest =>
      if bool_decide (Some mode = preferred_mode) then try_modes preferred_mode rest state
      else
        let state := ModeOf mode in
        if wlr_output_test_state state then state
        else try_modes preferred_mode rest state
  end.

(** The choice of a mode in [handle_new_output]; [preferred_mode] is the
    result of [wlr_output_preferred_mode].  [nested_width],
    [nested_height] and [nested_refresh] are [int]s, and the product
    with 1000 is an [int] handed over as an [int32_t]. *)
Definition select_mode (nested_width nested_height nested_refresh : Z) (modes : list addr)
    (preferred_mode : option addr) : mode_state :=
  if (0 <? nested_width) && (0 <? nested_height) then
    ModeCustom nested_width nested_height (to_int32 (nested_refresh * 1000))
  else if negb (wl_list_empty modes) then
    let state := match preferred_mode with Some mode => ModeOf mode | None => ModeUnset end in
    if negb (wlr_output_test_state state) then try_modes preferred_mode modes state
    else state
  else ModeUnset.

End Select.

(** A backend that accepts mode 3 only. *)
Definition only_mode_3 (state : mode_state) : bool :=
  match state with ModeOf 3%positive => true | _ => false end.

End OutputMode.

(** ** output.c: the layout and the list of outputs *)

Module OutputLayout.

(** Every member of the layout is the [wlr_output] of a listed output
    with a scene output. *)
Definition layout_listed (server : gf_server) : Prop :=
  forall a, a ∈ output_layout server ->
            exists o, o ∈ outputs server /\ wlr_output o = a /\ is_Some (scene_output o).

End OutputLayout.

(** ** gameframe.c: the single-file compositor *)

Module Legacy.

(** What [main] of gameframe.c branches on. *)
Record env := mkEnv {
  argc : Z;
  wl_display_create : bool;
  wlr_backend_autocreate : bool;
  wlr_renderer_autocreate : bool;
  wlr_allocator_autocreate : bool;
  wl_display_add_socket_auto : bool;
  wlr_backend_start : bool;
  fork : Supervisor.fork_result;
  loop_returns : bool;
}.

(** What a run amounts to: the return value, the pid of the client if it
    was forked, and whether it was sent SIGTERM and waited for. *)
Record result := mkResult {
  exit_code : Z;
  child_pid : option Z;
  killed_and_reaped : bool;
}.

(** The command is given and every step that [main] of gameframe.c
    tests before the fork succeeds. *)
Definition setup_ok (e : env) : bool :=
  (2 <=? argc e) && wl_display_create e && wlr_backend_autocreate e
  && wlr_renderer_autocreate e && wlr_allocator_autocreate e
  && wl_display_add_socket_auto e && wlr_backend_start e.

(** gameframe.c, [main], in the parent; [None] when [wl_display_run]
    does not return. *)
Definition main (e : env) : option result :=
  if argc e <? 2 then Some (mkResult 1 None false)
  else if negb (wl_display_create e) then Some (mkResult 1 None false)
  else if negb (wlr_backend_autocreate e) then Some (mkResult 1 None false)
  else if negb (wlr_renderer_autocreate e) then Some (mkResult 1 None false)
  else if negb (wlr_allocator_autocreate e) then Some (mkResult 1 None false)
  else if negb (wl_display_add_socket_auto e) then Some (mkResult 1 None false)
  else if negb (wlr_backend_start e) then Some (mkResult 1 None false)
  else
    match fork e with
    | Supervisor.ForkFailed => Some (mkResult 1 None false)
    | Supervisor.ForkParent pid =>
        if negb (loop_returns e) then None
        else Some (mkResult 0 (Some pid) (0 <? pid))
    end.

End Legacy.









(** * Properties *)

(** ** Process supervisor *)

Section SupervisorProperties.
Import Wait Cred Supervisor.

(** A property checked on every integer of a range holds on the range. *)
Lemma forallb_range (P : Z -> bool) (n : Z) :
  forallb P (seqZ 0 n) = true -> forall x, 0 <= x < n -> P x = true.
Proof.
  intros Hall x Hx. rewrite forallb_forall in Hall. apply Hall.
  apply list_elem_of_In, elem_of_seqZ. lia.
Qed.

Lemma cleanup_exited (waitpid : Z -> Z) (pid code : Z) :
  0 <= code < 256 -> waitpid pid = wait_status (Exited code) ->
  cleanup_primary_client waitpid pid = code.
Proof.
  intros Hcode Hst. unfold cleanup_primary_client. rewrite Hst.
  pose proof (forallb_range
    (fun c => WIFEXITED (wait_status (Exited c))
              && (WEXITSTATUS (wait_status (Exited c)) =? c)) 256) as Hall.
  specialize (Hall ltac:(vm_compute; reflexivity) code Hcode).
  apply andb_true_iff in Hall as [-> Hex]. lia.
Qed.

Lemma cleanup_signaled (waitpid : Z -> Z) (pid sig : Z) (core : bool) :
  1 <= sig < 127 -> waitpid pid = wait_status (Signaled sig core) ->
  cleanup_primary_client waitpid pid = 128 + sig.
Proof.
  intros Hsig Hst. unfold cleanup_primary_client. rewrite Hst.
  pose proof (forallb_range
    (fun s => (s =? 0)
              || (negb (WIFEXITED (wait_status (Signaled s core)))
                  && WIFSIGNALED (wait_status (Signaled s core))
                  && (WTERMSIG (wait_status (Signaled s core)) =? s))) 127) as Hall.
  specialize (Hall ltac:(destruct core; vm_compute; reflexivity) sig ltac:(lia)).
  apply orb_true_iff in Hall as [H0 | Hall]; [lia |].
  apply andb_true_iff in Hall as [Hall Hterm].
  apply andb_true_iff in Hall as [Hne Hs].
  apply negb_true_iff in Hne. rewrite Hne, Hs. lia.
Qed.

Lemma cleanup_stopped (waitpid : Z -> Z) (pid sig : Z) :
  1 <= sig < 127 -> waitpid pid = wait_status (Stopped sig) ->
  cleanup_primary_client waitpid pid = 0.
Proof.
  intros Hsig Hst. unfold cleanup_primary_client. rewrite Hst.
  pose proof (forallb_range
    (fun s => negb (WIFEXITED (wait_status (Stopped s)))
              && negb (WIFSIGNALED (wait_status (Stopped s)))) 127) as Hall.
  specialize (Hall ltac:(vm_compute; reflexivity) sig ltac:(lia)).
  apply andb_true_iff in Hall as [Hne Hs].
  apply negb_true_iff in Hne. apply negb_true_iff in Hs. by rewrite Hne, Hs.
Qed.

Lemma cleanup_continued (waitpid : Z -> Z) (pid : Z) :
  waitpid pid = wait_status Continued -> cleanup_primary_client waitpid pid = 0.
Proof. intros Hst. unfold cleanup_primary_client. by rewrite Hst. Qed.

Lemma cleanup_translates (waitpid : Z -> Z) (pid : Z) (o : wait_outcome) :
  valid_outcome o -> waitpid pid = wait_status o ->
  cleanup_primary_client waitpid pid = translated o.
Proof.
  destruct o; simpl; intros Hv Hst.
  - by apply cleanup_exited.
  - by eapply cleanup_signaled.
  - by eapply cleanup_stopped.
  - by apply cleanup_continued.
Qed.

Lemma dispatch_terminated (server : gf_server) (ev : loop_event) :
  terminated (dispatch server ev) = terminated server.
Proof.
  destruct ev as [mask | signal | |]; simpl; try reflexivity;
    unfold sigchld_handler, handle_signal, server_terminate;
    repeat case_match; simpl in *; congruence.
Qed.

Lemma dispatch_return_app_code (server : gf_server) (ev : loop_event) :
  return_app_code (dispatch server ev) = return_app_code server || is_liveness ev.
Proof.
  destruct ev as [mask | signal | |]; simpl;
    unfold sigchld_handler, handle_signal, server_terminate;
    repeat case_match; simpl in *; rewrite ?orb_false_r, ?orb_true_r; congruence.
Qed.

Lemma dispatch_display_run (server : gf_server) (ev : loop_event) :
  display_run (dispatch server ev)
  = display_run server && negb (requests_termination ev && negb (terminated server)).
Proof.
  destruct ev as [mask | signal | |]; simpl;
    unfold sigchld_handler, handle_signal, server_terminate; simpl;
    repeat case_match; simpl in *;
    repeat match goal with H : _ = _ |- _ => rewrite H end;
    simpl; rewrite ?andb_true_r, ?andb_false_r; try reflexivity; try congruence.
Qed.

Lemma foldl_dispatch_terminated (evs : list loop_event) (server : gf_server) :
  terminated (foldl dispatch server evs) = terminated server.
Proof.
  revert server. induction evs as [| ev evs IH]; intros server; simpl; [reflexivity |].
  by rewrite IH, dispatch_terminated.
Qed.

Lemma foldl_dispatch_return_app_code (evs : list loop_event) (server : gf_server) :
  return_app_code (foldl dispatch server evs)
  = return_app_code server || existsb is_liveness evs.
Proof.
  revert server. induction evs as [| ev evs IH]; intros server; simpl.
  - by rewrite orb_false_r.
  - by rewrite IH, dispatch_return_app_code, orb_assoc.
Qed.

Lemma foldl_dispatch_display_run (evs : list loop_event) (server : gf_server) :
  display_run (foldl dispatch server evs)
  = display_run server
    && negb (existsb requests_termination evs && negb (terminated server)).
Proof.
  revert server. induction evs as [| ev evs IH]; intros server; simpl.
  - by rewrite andb_true_r.
  - rewrite IH, dispatch_display_run, dispatch_terminated.
    destruct (display_run server), (requests_termination ev),
      (existsb requests_termination evs), (terminated server); reflexivity.
Qed.

(** The loop returns the server that the dispatched callbacks leave. *)
Lemma run_loop_dispatched (batches : list (list loop_event)) (server server' : gf_server) :
  run_loop batches server = Some server' ->
  server' = foldl dispatch server (dispatched batches server).
Proof.
  revert server. induction batches as [| batch rest IH]; intros server; simpl; [done |].
  unfold wl_event_loop_dispatch.
  destruct (display_run (foldl dispatch server batch)) eqn:Hrun; intros Hloop.
  - rewrite foldl_app. by apply IH.
  - rewrite app_nil_r. congruence.
Qed.

Lemma liveness_requests_termination (ev : loop_event) :
  is_liveness ev = true -> requests_termination ev = true.
Proof. by destruct ev. Qed.

Lemma existsb_liveness (evs : list loop_event) :
  existsb is_liveness evs = true <-> exists mask, EvLiveness mask ∈ evs.
Proof.
  rewrite existsb_exists. split.
  - intros [[mask | | |] [Hin Hl]]; try discriminate.
    exists mask. by apply list_elem_of_In.
  - intros [mask Hin]. exists (EvLiveness mask). split; [by apply list_elem_of_In | done].
Qed.

(** Once a callback that requests termination has run, the loop ends. *)
Lemma run_loop_terminates (batches : list (list loop_event)) (server : gf_server) :
  terminated server = false ->
  existsb requests_termination (dispatched batches server) = true ->
  exists server', run_loop batches server = Some server'.
Proof.
  revert server. induction batches as [| batch rest IH]; intros server Hterm; simpl; [done |].
  unfold wl_event_loop_dispatch.
  destruct (display_run (foldl dispatch server batch)) eqn:Hrun; [| eauto].
  rewrite existsb_app. intros Hex. apply IH.
  - by rewrite foldl_dispatch_terminated.
  - rewrite foldl_dispatch_display_run, Hterm in Hrun.
    destruct (existsb requests_termination batch); [| done].
    by rewrite andb_true_r, andb_false_r in Hrun.
Qed.

(** Past the setup, [main] is the spawn, the loop and the reaping. *)
Lemma main_after_setup (e : env) :
  setup_ok e = true ->
  main e =
    let c := snd (drop_permissions (process_creds e)) in
    match spawn_primary_client e with
    | SpawnFailed pid_out =>
        at_end 1 0 (match pid_out with Some _ => Some c | None => None end) false
    | Spawned pid =>
        match run_loop (loop_events e) (server_at_run e) with
        | None => None
        | Some server =>
            if return_app_code server
            then at_end 0 (cleanup_primary_client (waitpid e) pid) (Some c) true
            else at_end 0 0 (Some c) false
        end
    end.
Proof.
  unfold setup_ok. rewrite !andb_true_iff.
  intros [[[[[[[[[[[[[[[[Hp ?] ?] ?] Hd] ?] ?] ?] ?] ?] ?] ?] ?] ?] ?] ?] ?].
  unfold main. destruct (parse_args e); try discriminate.
  destruct (drop_permissions (process_creds e)) as [dropped c] eqn:Hdrop.
  simpl in Hd. subst dropped.
  repeat match goal with H : _ = true |- _ => rewrite H; clear H end.
  reflexivity.
Qed.

Lemma liveness_dispatched_terminates (evs : list loop_event) :
  existsb is_liveness evs = true -> existsb requests_termination evs = true.
Proof.
  rewrite !existsb_exists. intros [ev [Hin Hl]]. exists ev.
  split; [done | by apply liveness_requests_termination].
Qed.

(** [main] calls [waitpid] only after a complete setup and a successful
    spawn. *)
Lemma main_reaped (e : env) (r : main_result) :
  main e = Some r -> reaped r = true ->
  setup_ok e = true /\ exists pid, spawn_primary_client e = Spawned pid.
Proof.
  unfold main, setup_ok, or_return_1, or_goto_end, at_end.
  destruct (drop_permissions (process_creds e)) as [dropped c]. simpl.
  intros Hmain Hreaped.
  repeat (case_match; simplify_eq; simpl in *; try discriminate);
    (split; [reflexivity | eauto]).
Qed.

(** [drop_permissions] lets a process through whose real ids are not
    root's only when none of its ids is. *)
Lemma drop_permissions_unprivileged (c c' : creds) :
  ruid c <> 0 -> rgid c <> 0 ->
  drop_permissions c = (true, c') -> unprivileged c'.
Proof.
  destruct c as [ru eu su rg eg sg]. simpl. intros Hru Hrg.
  unfold drop_permissions, bind, ret, getuid, geteuid, getgid, getegid, setuid, setgid.
  simpl.
  repeat (case_match; simpl in *; simplify_eq; try lia);
    intros; simplify_eq; unfold unprivileged; simpl; lia.
Qed.

Lemma drop_permissions_root (c : creds) :
  ruid c = 0 \/ rgid c = 0 -> drop_permissions c = (true, c).
Proof.
  destruct c as [ru eu su rg eg sg]. simpl.
  unfold drop_permissions, bind, ret, getuid, getgid. simpl.
  intros [-> | ->]; simpl; [reflexivity |].
  destruct (ru =? 0); reflexivity.
Qed.

(** [main] forks the client with the credentials that [drop_permissions]
    leaves, and only when it lets the process through. *)
Lemma main_client (e : env) (r : main_result) (c : creds) :
  main e = Some r -> client r = Some c ->
  drop_permissions (process_creds e) = (true, c).
Proof.
  unfold main, or_return_1, or_goto_end, at_end.
  destruct (drop_permissions (process_creds e)) as [dropped c0]. simpl.
  intros Hmain Hclient.
  repeat (case_match; simplify_eq; simpl in *; try discriminate); congruence.
Qed.

Lemma main_refused (e : env) :
  fst (drop_permissions (process_creds e)) = false ->
  exists r, main e = Some r /\ client r = None /\ reaped r = false /\
            (parse_args e <> ParseExit -> exit_code r = 1).
Proof.
  unfold main, or_return_1, or_goto_end, at_end.
  destruct (drop_permissions (process_creds e)) as [dropped c0]. simpl.
  intros ->.
  repeat (case_match; simplify_eq; simpl in *; try discriminate);
    eexists; (split; [reflexivity |]); simpl; repeat split; congruence.
Qed.

(** C1.  After a complete setup the exit code of the server is that of
    the supervised client: when the spawn fails at [pipe] or at [fork] the
    server exits with 1 and no client was forked; when the client was
    spawned and its liveness pipe fired during the run of the loop, the
    server exits with [N] for a client that exited with status [N], with
    [128 + S] for a client killed by signal [S], and with 0 for any other
    wait outcome. *)
Theorem exit_code_of_client (e : env) :
  setup_ok e = true ->
  (pipe_ok e = false \/ fork e = ForkFailed ->
   main e = Some (mkResult 1 None false)) /\
  (forall pid mask o,
     spawn_primary_client e = Spawned pid ->
     EvLiveness mask ∈ dispatched (loop_events e) (server_at_run e) ->
     waitpid e pid = wait_status o -> valid_outcome o ->
     exists r, main e = Some r /\ reaped r = true /\
       exit_code r = match o with
                     | Exited status => status
                     | Signaled sig _ => 128 + sig
                     | Stopped _ | Continued => 0
                     end).
Proof.
  intros Hsetup. rewrite (main_after_setup e Hsetup). simpl. split.
  - intros Hfail. unfold spawn_primary_client.
    destruct Hfail as [-> | Hfork]; simpl; [reflexivity |].
    rewrite Hfork. by destruct (pipe_ok e).
  - intros pid mask o -> Hlive Hstatus Hvalid.
    assert (existsb is_liveness (dispatched (loop_events e) (server_at_run e)) = true)
      as Hex by (apply existsb_liveness; eauto).
    destruct (run_loop_terminates (loop_events e) (server_at_run e)) as [server Hrun];
      [reflexivity | by apply liveness_dispatched_terminates |].
    rewrite Hrun. pose proof (run_loop_dispatched _ _ _ Hrun) as ->.
    rewrite foldl_dispatch_return_app_code, Hex, orb_true_r.
    eexists. split; [reflexivity |]. split; [reflexivity |]. simpl.
    rewrite (cleanup_translates (waitpid e) pid o Hvalid Hstatus).
    by destruct o.
Qed.

Lemma exit_code_of_client_witness :
  main (env_with user_creds false (ForkParent 42) [] 0) = Some (mkResult 1 None false) /\
  exists r,
    main (env_with user_creds true (ForkParent 42) [[EvLiveness 4]]
            (wait_status (Signaled 9 false))) = Some r /\
    reaped r = true /\ exit_code r = 128 + 9.
Proof.
  split.
  - apply (exit_code_of_client (env_with user_creds false (ForkParent 42) [] 0));
      [vm_compute; reflexivity | left; reflexivity].
  - apply (proj2 (exit_code_of_client
                    (env_with user_creds true (ForkParent 42) [[EvLiveness 4]]
                       (wait_status (Signaled 9 false)))
                    ltac:(vm_compute; reflexivity)) 42 4 (Signaled 9 false)).
    + reflexivity.
    + vm_compute. left.
    + reflexivity.
    + simpl. lia.
Defined.

(** C9 as stated fails for a server started by root: the permission check
    passes, the setup goes on, and the client is forked with effective uid
    0. *)
Lemma root_is_not_refused :
  drop_permissions root_creds = (true, root_creds) /\
  euid root_creds = 0 /\
  main (env_with root_creds true (ForkParent 42) [[EvLiveness 4]] (wait_status (Exited 0)))
  = Some (mkResult 0 (Some root_creds) true).
Proof. repeat split; vm_compute; reflexivity. Qed.

(** C9, amended.  A server whose real uid or gid is 0 passes the
    permission check with its credentials unchanged.  For a server whose
    real uid and gid are not 0: when [drop_permissions] fails, [main] forks
    no client and returns 1 (unless [-v] made it exit before); when it
    succeeds, none of the process ids is 0 afterwards, and these are the
    credentials of every client that [main] forks. *)
Theorem privileges_dropped_or_refused (e : env) :
  (ruid (process_creds e) = 0 \/ rgid (process_creds e) = 0 ->
   drop_permissions (process_creds e) = (true, process_creds e)) /\
  (ruid (process_creds e) <> 0 -> rgid (process_creds e) <> 0 ->
   (fst (drop_permissions (process_creds e)) = false ->
    exists r, main e = Some r /\ client r = None /\ reaped r = false /\
              (parse_args e <> ParseExit -> exit_code r = 1)) /\
   (forall c, drop_permissions (process_creds e) = (true, c) -> unprivileged c) /\
   (forall r c, main e = Some r -> client r = Some c -> unprivileged c)).
Proof.
  split; [apply drop_permissions_root |].
  intros Hu Hg. split; [apply main_refused |]. split.
  - intros c. by apply drop_permissions_unprivileged.
  - intros r c Hmain Hclient.
    apply (drop_permissions_unprivileged (process_creds e)); [done | done |].
    by eapply main_client.
Qed.

Lemma privileges_dropped_or_refused_witness :
  unprivileged user_creds /\
  exists r,
    main (env_with (mkCreds 1000 1000 0 1000 1000 1000) true (ForkParent 42) [] 0) = Some r /\
    client r = None /\ reaped r = false /\ exit_code r = 1.
Proof.
  split.
  - destruct (privileges_dropped_or_refused
                (env_with setuid_root_creds true (ForkParent 42) [] 0)) as [_ Hnonroot].
    destruct Hnonroot as [_ [Hdrop _]]; [simpl; lia | simpl; lia |].
    apply Hdrop. vm_compute. reflexivity.
  - destruct (privileges_dropped_or_refused
                (env_with (mkCreds 1000 1000 0 1000 1000 1000) true (ForkParent 42) [] 0))
      as [_ Hnonroot].
    destruct Hnonroot as [Hrefused _]; [simpl; lia | simpl; lia |].
    destruct Hrefused as [r [Hmain [Hclient [Hreaped Hexit]]]]; [vm_compute; reflexivity |].
    exists r. repeat split; try assumption. apply Hexit. simpl. discriminate.
Defined.

(** C10.  [main] waits for the child only when the callback of the
    liveness pipe ran during the loop.  After a complete setup and a
    successful spawn, a loop in which a callback requested termination
    returns; if none of the callbacks it ran was that of the liveness pipe
    (the loop ended on SIGINT, SIGTERM or another termination request), the
    server does not wait for the child and exits with 0. *)
Theorem exit_code_only_after_liveness (e : env) :
  (forall r, main e = Some r -> reaped r = true ->
     exists mask, EvLiveness mask ∈ dispatched (loop_events e) (server_at_run e)) /\
  (setup_ok e = true ->
   (exists pid, spawn_primary_client e = Spawned pid) ->
   existsb requests_termination (dispatched (loop_events e) (server_at_run e)) = true ->
   (forall mask, EvLiveness mask ∉ dispatched (loop_events e) (server_at_run e)) ->
   exists c, main e = Some (mkResult 0 (Some c) false)).
Proof.
  split.
  - intros r Hmain Hreaped.
    destruct (main_reaped e r Hmain Hreaped) as [Hsetup [pid Hspawn]].
    rewrite (main_after_setup e Hsetup), Hspawn in Hmain. simpl in Hmain.
    destruct (run_loop (loop_events e) (server_at_run e)) as [server |] eqn:Hrun;
      [| discriminate].
    pose proof (run_loop_dispatched _ _ _ Hrun) as ->.
    rewrite foldl_dispatch_return_app_code in Hmain. simpl in Hmain.
    destruct (existsb is_liveness _) eqn:Hex.
    + by apply existsb_liveness.
    + unfold at_end in Hmain. by simplify_eq.
  - intros Hsetup [pid Hspawn] Hterm Hnone.
    rewrite (main_after_setup e Hsetup), Hspawn. simpl.
    destruct (run_loop_terminates (loop_events e) (server_at_run e)) as [server Hrun];
      [reflexivity | done |].
    rewrite Hrun. pose proof (run_loop_dispatched _ _ _ Hrun) as ->.
    rewrite foldl_dispatch_return_app_code. simpl.
    destruct (existsb is_liveness _) eqn:Hex.
    + apply existsb_liveness in Hex as [mask Hin]. by destruct (Hnone mask).
    + eexists. reflexivity.
Qed.

Lemma exit_code_only_after_liveness_witness :
  exists c,
    main (env_with user_creds true (ForkParent 42) [[EvOther]; [EvSignal SIGTERM]]
            (wait_status (Exited 7)))
    = Some (mkResult 0 (Some c) false).
Proof.
  apply (proj2 (exit_code_only_after_liveness
                  (env_with user_creds true (ForkParent 42) [[EvOther]; [EvSignal SIGTERM]]
                     (wait_status (Exited 7))))).
  - vm_compute. reflexivity.
  - exists 42. reflexivity.
  - vm_compute. reflexivity.
  - intros mask Hin. vm_compute in Hin.
    apply elem_of_cons in Hin as [Hin | Hin]; [discriminate |].
    apply elem_of_cons in Hin as [Hin | Hin]; [discriminate |].
    by apply elem_of_nil in Hin.
Defined.

End SupervisorProperties.

(** ** Transient windows *)

Section ViewProperties.
Import View.


(** On parent pointers without a cycle and with enough fuel, the loop
    answers, and answers true exactly for a proper ancestor. *)
Lemma parent_chain_has_ancestor (parent_of : gmap addr addr) (rank : addr -> nat)
    (fuel : nat) (t target : addr) :
  acyclic parent_of rank -> (rank t < fuel)%nat ->
  exists b, parent_chain_has parent_of fuel (Some t) (Some target) = Some b /\
            (b = true <-> ancestor parent_of t target).
Proof.
  intros Hacyclic. revert t. induction fuel as [| fuel IH]; intros t Hrank; [lia |].
  simpl. destruct (decide (parent_of !! t = Some target)) as [Heq | Hne].
  - exists true. split; [done |]. split; [intros _; by constructor | done].
  - destruct (parent_of !! t) as [m |] eqn:Hparent.
    + destruct (IH m) as [b [Hloop Hb]]; [specialize (Hacyclic t m Hparent); lia |].
      exists b. split; [done |]. rewrite Hb. split.
      * intros Hanc. by eapply ancestor_step.
      * intros Hanc. inversion Hanc; simplify_eq. done.
    + exists false. split; [by destruct fuel |]. split; [done |].
      intros Hanc. inversion Hanc; simplify_eq.
Qed.

(** xdg_shell.c: for two xdg-shell views, [is_transient_for] is true
    exactly when the toplevel of [parent] is a proper ancestor of the
    toplevel of [child]. *)
Lemma xdg_is_transient_for_ancestor (h : toplevels) (rank : addr -> nat) (fuel : nat)
    (child parent : gf_view) (c p : addr) :
  acyclic (xdg_parent h) rank -> (rank c < fuel)%nat ->
  type parent = GAMEFRAME_XDG_SHELL_VIEW ->
  native child = Some c -> native parent = Some p ->
  exists b, XdgShell.is_transient_for h fuel child parent = Some b /\
            (b = true <-> ancestor (xdg_parent h) c p).
Proof.
  intros Hacyclic Hrank Htype Hc Hp. unfold XdgShell.is_transient_for.
  rewrite Htype, Hc, Hp. simpl. by eapply parent_chain_has_ancestor.
Qed.


(** xwayland.c: the guard sends every Xwayland parent away. *)
Lemma xwayland_is_transient_for_xwayland_parent (h : toplevels) (fuel : nat)
    (child parent : gf_view) :
  type parent = GAMEFRAME_XWAYLAND_VIEW ->
  Xwayland.is_transient_for h fuel child parent = Some false.
Proof. intros Htype. unfold Xwayland.is_transient_for. by rewrite Htype. Qed.

Lemma ancestor_rank (parent_of : gmap addr addr) (rank : addr -> nat) (t a : addr) :
  acyclic parent_of rank -> ancestor parent_of t a -> (rank a < rank t)%nat.
Proof.
  intros Hacyclic Hanc. induction Hanc as [t a Hp | t m a Hp _ IH].
  - by apply Hacyclic.
  - specialize (Hacyclic t m Hp). lia.
Qed.


(** C6.  An Xwayland dialog whose surface has the surface of an Xwayland
    application window for parent: the parent is in the chain that the
    claim has [is_transient_for] walk, and [is_transient_for] of xwayland.c
    answers false, whatever the fuel, where the same pair of xdg-shell
    views gets true. *)
Theorem xwayland_dialog_is_not_transient :
  ancestor (xwayland_parent dialog_world) 2 1 /\
  (forall fuel, view_is_transient_for dialog_world fuel x11_dialog_view x11_app_view
                = Some false) /\
  view_is_transient_for dialog_world 2 dialog_view app_view = Some true.
Proof.
  split; [by constructor |]. split; [| reflexivity].
  intros fuel. by apply xwayland_is_transient_for_xwayland_parent.
Qed.

End ViewProperties.

(** ** Focus on pointer press *)

Section FocusProperties.
Import View Seat.

Lemma dialog_world_acyclic :
  acyclic (xdg_parent dialog_world) Pos.to_nat /\
  acyclic (xwayland_parent dialog_world) Pos.to_nat.
Proof.
  split; intros t a Hparent; simpl in Hparent;
    apply lookup_singleton_Some in Hparent as [<- <-]; vm_compute; lia.
Qed.






End FocusProperties.

(** ** Keybindings *)

Section KeybindingProperties.
Import Seat.

Lemma emit_calls (c : call) (server : gf_server) :
  calls (emit c server) = calls server ++ [c].
Proof. reflexivity. Qed.

Lemma server_terminate_calls (server : gf_server) :
  calls (server_terminate server) = calls server.
Proof. unfold server_terminate. by destruct (terminated server). Qed.

Lemma server_terminate_display_run (server : gf_server) :
  display_run (server_terminate server) = display_run server && terminated server.
Proof.
  unfold server_terminate. destruct (terminated server) eqn:Hterm; simpl.
  - by rewrite andb_true_r.
  - by rewrite andb_false_r.
Qed.

Lemma handle_keybinding_frame (server : gf_server) (sym : Z) :
  let server' := snd (handle_keybinding server sym) in
  terminated server' = terminated server /\
  allow_vt_switch server' = allow_vt_switch server /\
  display_run server'
  = display_run server && negb ((sym =? XKB_KEY_Escape) && negb (terminated server)).
Proof.
  unfold handle_keybinding, server_terminate.
  repeat (case_match; simpl in *); simplify_eq;
    rewrite ?andb_true_r, ?andb_false_r; repeat split; congruence.
Qed.

(** The symbols of one key event run through [handle_keybinding] clear the
    [run] flag exactly when Escape is among them (on a server that is not
    [terminated]). *)
Lemma keybindings_display_run (syms : list Z) (handled : bool) (server : gf_server) :
  let server' :=
    snd (foldl (fun '(_, server) sym => handle_keybinding server sym) (handled, server) syms) in
  terminated server' = terminated server /\
  display_run server'
  = display_run server
    && negb (existsb (fun sym => sym =? XKB_KEY_Escape) syms && negb (terminated server)).
Proof.
  revert handled server. induction syms as [| sym syms IH]; intros handled server; simpl.
  - by rewrite andb_true_r.
  - destruct (handle_keybinding_frame server sym) as [Hterm [_ Hrun]].
    destruct (handle_keybinding server sym) as [handled' server1]. simpl in *.
    destruct (IH handled' server1) as [Hterm' Hrun']. split; [congruence |].
    rewrite Hrun', Hrun, Hterm.
    destruct (display_run server), (sym =? XKB_KEY_Escape), (terminated server),
      (existsb _ syms); reflexivity.
Qed.

(** C3 as stated fails: with Alt held, the release of Escape is forwarded
    to the client and requests no termination; and with VT switching
    permitted on a backend that is not a multi-backend, Alt with a
    VT-switch key is consumed although no VT switch is issued. *)
Lemma alt_escape_release_is_forwarded :
  let release := mkKeyEvent 0 1 0 in
  let press := mkKeyEvent 0 59 WL_KEYBOARD_KEY_STATE_PRESSED in
  let after_release :=
    handle_key_event (fun _ => [XKB_KEY_Escape]) WLR_MODIFIER_ALT release
      (running_server false true) in
  let after_vt :=
    handle_key_event (fun _ => [XKB_KEY_XF86Switch_VT_1]) WLR_MODIFIER_ALT press
      (running_server true false) in
  forwarded (running_server false true) after_release = true /\
  display_run after_release = true /\
  forwarded (running_server true false) after_vt = false /\
  calls after_vt = [wlr_idle_notifier_v1_notify_activity; wlr_idle_notifier_v1_notify_activity].
Proof. repeat split; vm_compute; reflexivity. Qed.

Lemma last_cons_or {A} (x : A) (l : list A) :
  last (x :: l) = match last l with Some y => Some y | None => Some x end.
Proof. destruct l as [| y l]; [done |]. rewrite last_cons_cons. by destruct (last (y :: l)) eqn:Hl;
  [| apply last_None in Hl]. Qed.

Lemma escape_is_no_vt_switch (sym : Z) :
  (sym =? XKB_KEY_Escape) = true -> is_vt_switch sym = false.
Proof.
  intros Hsym. apply Z.eqb_eq in Hsym as ->. reflexivity.
Qed.

(** One call of [handle_keybinding]: its result, what it leaves alone,
    and what it calls. *)
Lemma handle_keybinding_effect (server : gf_server) (sym : Z) :
  let server' := snd (handle_keybinding server sym) in
  fst (handle_keybinding server sym) = is_bound server sym /\
  allow_vt_switch server' = allow_vt_switch server /\
  backend_is_multi server' = backend_is_multi server /\
  session server' = session server /\
  exists extra,
    calls server' = calls server ++ extra /\
    existsb is_notify_key extra = false /\
    omap vt_of_call extra
    = if allow_vt_switch server && multi_session server && is_vt_switch sym
      then [sym - XKB_KEY_XF86Switch_VT_1 + 1] else [].
Proof.
  cbv zeta. unfold handle_keybinding, is_bound, multi_session.
  destruct (sym =? XKB_KEY_Escape) eqn:Hesc.
  { rewrite (escape_is_no_vt_switch sym Hesc), !andb_false_r. cbn [fst snd orb].
    unfold server_terminate. destruct (terminated server); cbn;
      (do 4 (split; [done |])); exists []; by rewrite app_nil_r. }
  rewrite <- andb_assoc. fold (is_vt_switch sym). cbn [orb].
  destruct (allow_vt_switch server) eqn:Hvt; cbn [andb].
  2: { cbn. do 4 (split; [done |]). exists []. by rewrite app_nil_r. }
  destruct (is_vt_switch sym); cbn [andb fst snd].
  2: { rewrite andb_false_r. do 4 (split; [done |]). exists []. by rewrite app_nil_r. }
  rewrite andb_true_r.
  destruct (backend_is_multi server) eqn:Hmulti; cbn [andb].
  2: { cbn. do 4 (split; [done |]). by eexists. }
  destruct (session server) as [sess |] eqn:Hsession.
  - rewrite bool_decide_eq_true_2 by done. cbn. rewrite Hsession.
    do 4 (split; [done |]). eexists. split; [by rewrite <- app_assoc |]. done.
  - rewrite bool_decide_eq_false_2 by (intros Hne; by apply Hne). cbn. rewrite Hsession.
    do 4 (split; [done |]). by eexists.
Qed.

(** The loop of [handle_key_event] over the symbols of the key. *)
Lemma keybindings_effect (syms : list Z) (handled : bool) (server : gf_server) :
  let result := foldl (fun '(_, server) sym => handle_keybinding server sym)
                  (handled, server) syms in
  fst result = match last syms with Some sym => is_bound server sym | None => handled end /\
  exists extra,
    calls (snd result) = calls server ++ extra /\
    existsb is_notify_key extra = false /\
    omap vt_of_call extra
    = if allow_vt_switch server && multi_session server
      then map (fun sym => sym - XKB_KEY_XF86Switch_VT_1 + 1) (List.filter is_vt_switch syms)
      else [].
Proof.
  revert handled server. induction syms as [| sym syms IH]; intros handled server.
  - simpl. split; [done |]. exists []. rewrite app_nil_r. by destruct (_ && _).
  - cbn [foldl]. rewrite last_cons_or.
    destruct (handle_keybinding_effect server sym)
      as (Hhandled & Hvt & Hmulti & Hsession & extra1 & Hcalls1 & Hnotify1 & Hvts1).
    destruct (handle_keybinding server sym) as [handled1 server1]. simpl in *.
    destruct (IH handled1 server1) as (Hfst & extra2 & Hcalls2 & Hnotify2 & Hvts2).
    cbv zeta in *. split.
    + rewrite Hfst. unfold is_bound. rewrite Hvt. by destruct (last syms).
    + exists (extra1 ++ extra2). split; [by rewrite Hcalls2, Hcalls1, <- app_assoc |].
      split; [by rewrite existsb_app, Hnotify1, Hnotify2 |].
      rewrite omap_app, Hvts1, Hvts2. unfold multi_session. rewrite Hvt, Hmulti, Hsession.
      destruct (allow_vt_switch server && _); simpl; [| done].
      by destruct (is_vt_switch sym).
Qed.

(** C3, amended.  A key event is consumed (not forwarded to the client)
    exactly when Alt is held, the key goes down, and the symbol of the
    key (the last one, for a key with several symbols) is Escape or, with
    VT switching permitted, one of the VT-switch symbols 1-12; so key
    releases are forwarded, as are the events of a key without symbol and
    the VT-switch keys when VT switching is disabled.  Termination is
    requested exactly when Alt is held, the key goes down and Escape is
    among the symbols.  A VT change is issued exactly for the VT-switch
    symbols of a key that goes down with Alt held while VT switching is
    permitted and the backend is a multi-backend with a session, to the
    terminal that the symbol numbers. *)
Theorem keybinding_filter (xkb_state_key_get_syms : Z -> list Z) (modifiers : Z)
    (event : wlr_keyboard_key_event) (server : gf_server) :
  let server' := handle_key_event xkb_state_key_get_syms modifiers event server in
  let syms := xkb_state_key_get_syms (to_uint32 (keycode event + 8)) in
  forwarded server server'
  = negb (alt_press modifiers event
          && match last syms with Some sym => is_bound server sym | None => false end) /\
  display_run server'
  = display_run server
    && negb (alt_press modifiers event
             && existsb (fun sym => sym =? XKB_KEY_Escape) syms
             && negb (terminated server)) /\
  vt_changes server server'
  = if alt_press modifiers event && allow_vt_switch server && multi_session server
    then map (fun sym => sym - XKB_KEY_XF86Switch_VT_1 + 1) (List.filter is_vt_switch syms)
    else [].
Proof.
  cbv zeta. unfold handle_key_event, forwarded, vt_changes, alt_press.
  set (syms := xkb_state_key_get_syms (to_uint32 (keycode event + 8))).
  destruct (negb (Z.land modifiers WLR_MODIFIER_ALT =? 0)
            && (state event =? WL_KEYBOARD_KEY_STATE_PRESSED)); simpl.
  - destruct (keybindings_effect syms false server)
      as (Hhandled & extra & Hcalls & Hnotify & Hvts).
    destruct (keybindings_display_run syms false server) as [_ Hrun].
    destruct (foldl _ _ syms) as [handled server1]. simpl in *.
    rewrite <- Hhandled, <- Hvts. split; [| split].
    + destruct handled; simpl; rewrite Hcalls, <- ?app_assoc, drop_app_length,
        existsb_app, Hnotify; reflexivity.
    + rewrite <- Hrun. by destruct handled.
    + destruct handled; simpl; rewrite Hcalls, <- ?app_assoc, drop_app_length,
        omap_app, ?app_nil_r; simpl; by rewrite ?app_nil_r.
  - rewrite <- !app_assoc, drop_app_length. simpl. by rewrite andb_true_r.
Qed.

Lemma keybinding_filter_witness :
  forwarded (running_server false true)
    (handle_key_event (fun _ => [XKB_KEY_Escape]) WLR_MODIFIER_ALT
       (mkKeyEvent 0 1 WL_KEYBOARD_KEY_STATE_PRESSED) (running_server false true)) = false /\
  vt_changes (running_server true true)
    (handle_key_event (fun _ => [XKB_KEY_XF86Switch_VT_1 + 2]) WLR_MODIFIER_ALT
       (mkKeyEvent 0 61 WL_KEYBOARD_KEY_STATE_PRESSED) (running_server true true)) = [3].
Proof.
  split.
  - rewrite (proj1 (keybinding_filter (fun _ => [XKB_KEY_Escape]) WLR_MODIFIER_ALT
                      (mkKeyEvent 0 1 WL_KEYBOARD_KEY_STATE_PRESSED)
                      (running_server false true))).
    reflexivity.
  - rewrite (proj2 (proj2 (keybinding_filter (fun _ => [XKB_KEY_XF86Switch_VT_1 + 2])
                             WLR_MODIFIER_ALT
                             (mkKeyEvent 0 61 WL_KEYBOARD_KEY_STATE_PRESSED)
                             (running_server true true)))).
    reflexivity.
Defined.

End KeybindingProperties.

(** ** Seat capabilities *)

Section CapabilityProperties.
Import Seat.

Lemma update_capabilities_lists (seat : gf_seat) :
  keyboard_groups (update_capabilities seat) = keyboard_groups seat /\
  pointers (update_capabilities seat) = pointers seat /\
  touch (update_capabilities seat) = touch seat.
Proof. unfold update_capabilities. by case_match. Qed.

Lemma update_capabilities_derived (seat : gf_seat) :
  capabilities_derived (update_capabilities seat).
Proof.
  unfold capabilities_derived, update_capabilities, derived_capabilities.
  destruct seat as [kg ps ts caps cur fs kb cs]. simpl.
  destruct kg, ps, ts; split; reflexivity.
Qed.

(** [update_capabilities] sets the capabilities to the union that the lists
    call for, clears the cursor image when the pointer capability is not
    in it and sets the default image when it is. *)
Lemma update_capabilities_cursor (seat : gf_seat) :
  let seat' := update_capabilities seat in
  (cursor seat' = CursorUnset <->
   Z.land (capabilities seat') WL_SEAT_CAPABILITY_POINTER = 0) /\
  (cursor seat' = CursorDefaultXcursor <->
   Z.land (capabilities seat') WL_SEAT_CAPABILITY_POINTER <> 0).
Proof.
  unfold update_capabilities.
  destruct seat as [kg ps ts caps cur fs kb cs]. simpl.
  destruct kg, ps, ts; vm_compute; (split; split; congruence).
Qed.

(** After every device event the capabilities are the derived ones. *)
Lemma seat_step_derived (seat : gf_seat) (ev : seat_event) :
  capabilities_derived seat -> capabilities_derived (seat_step seat ev).
Proof.
  intros Hseat. destruct ev as [e device | device]; simpl.
  - destruct device as [k virtual | p | t | a]; simpl;
      [apply update_capabilities_derived | | | done].
    + unfold handle_new_pointer. destruct (calloc_ok e); simpl;
        [apply update_capabilities_derived | done].
    + unfold handle_new_touch. destruct (calloc_ok e); simpl;
        [apply update_capabilities_derived | done].
  - destruct device as [k virtual | p | t | a]; simpl; try done.
    + case_bool_decide; [apply update_capabilities_derived | done].
    + case_bool_decide; [apply update_capabilities_derived | done].
Qed.

Lemma seat_run_derived (evs : list seat_event) :
  capabilities_derived (foldl seat_step seat_create evs).
Proof.
  assert (forall seat, capabilities_derived seat ->
                       capabilities_derived (foldl seat_step seat evs)) as Hrun.
  { induction evs as [| ev evs IH]; intros seat Hseat; simpl; [done |].
    by apply IH, seat_step_derived. }
  apply Hrun, update_capabilities_derived.
Qed.

Lemma wl_list_remove_head (a : addr) (l : list addr) : wl_list_remove a (a :: l) = l.
Proof. simpl. by rewrite decide_True. Qed.

(** A new pointer that is added and removed at once leaves the
    capabilities as they were; likewise a touch device. *)
Lemma pointer_add_remove (e : alloc_env) (p : addr) (seat : gf_seat) :
  capabilities_derived seat -> p ∉ pointers seat ->
  capabilities
    (input_device_destroy (WLR_INPUT_DEVICE_POINTER p)
       (handle_new_input e (WLR_INPUT_DEVICE_POINTER p) seat))
  = capabilities seat.
Proof.
  intros [Hcaps _] Hfresh. simpl. unfold handle_new_pointer. destruct (calloc_ok e); simpl.
  - destruct (update_capabilities_lists (set_pointers (p :: pointers seat) seat))
      as [Hk [Hp Ht]]. simpl in *.
    rewrite bool_decide_eq_true_2 by (rewrite Hp; left).
    unfold handle_pointer_destroy. rewrite Hp, wl_list_remove_head.
    destruct (update_capabilities_derived
                (set_pointers (pointers seat)
                   (update_capabilities (set_pointers (p :: pointers seat) seat))))
      as [-> _].
    rewrite Hcaps. unfold derived_capabilities.
    destruct (update_capabilities_lists
                (set_pointers (pointers seat)
                   (update_capabilities (set_pointers (p :: pointers seat) seat))))
      as [-> [-> ->]].
    simpl. by rewrite Hk, Ht.
  - by rewrite bool_decide_eq_false_2.
Qed.

Lemma touch_add_remove (e : alloc_env) (t : addr) (seat : gf_seat) :
  capabilities_derived seat -> t ∉ touch seat ->
  capabilities
    (input_device_destroy (WLR_INPUT_DEVICE_TOUCH t)
       (handle_new_input e (WLR_INPUT_DEVICE_TOUCH t) seat))
  = capabilities seat.
Proof.
  intros [Hcaps _] Hfresh. simpl. unfold handle_new_touch. destruct (calloc_ok e); simpl.
  - destruct (update_capabilities_lists (set_touch (t :: touch seat) seat))
      as [Hk [Hp Ht]]. simpl in *.
    rewrite bool_decide_eq_true_2 by (rewrite Ht; left).
    unfold handle_touch_destroy. rewrite Ht, wl_list_remove_head.
    destruct (update_capabilities_derived
                (set_touch (touch seat)
                   (update_capabilities (set_touch (t :: touch seat) seat))))
      as [-> _].
    rewrite Hcaps. unfold derived_capabilities.
    destruct (update_capabilities_lists
                (set_touch (touch seat)
                   (update_capabilities (set_touch (t :: touch seat) seat))))
      as [-> [-> ->]].
    simpl. by rewrite Hk, Hp.
  - by rewrite bool_decide_eq_false_2.
Qed.

(** Had [handle_keyboard_destroy] been added to a signal and run for the
    group of the keyboard, the capabilities would have been restored. *)
Lemma keyboard_destroy_would_restore :
  let e := mkAlloc true (fun _ _ => false) (Some 7%positive) in
  let added := handle_new_input e (WLR_INPUT_DEVICE_KEYBOARD 5 false) seat_create in
  capabilities (handle_keyboard_destroy (mkGroup 7 false) added) = capabilities seat_create.
Proof. reflexivity. Qed.

(** C7.  On a seat without devices a keyboard is added and removed at
    once: the pre-add capability set is empty, the add sets the keyboard
    capability, and the removal, for which the seat runs no handler,
    leaves it set. *)
Theorem keyboard_capability_not_restored :
  let e := mkAlloc true (fun _ _ => false) (Some 7%positive) in
  let keyboard := WLR_INPUT_DEVICE_KEYBOARD 5 false in
  let added := seat_step seat_create (DeviceAdded e keyboard) in
  let removed := seat_step added (DeviceRemoved keyboard) in
  capabilities seat_create = 0 /\
  capabilities added = WL_SEAT_CAPABILITY_KEYBOARD /\
  capabilities removed = WL_SEAT_CAPABILITY_KEYBOARD /\
  capabilities removed <> capabilities seat_create.
Proof. repeat split; vm_compute; congruence. Qed.

End CapabilityProperties.

(** ** Idle inhibition *)

Section IdleInhibitProperties.
Import IdleInhibit.

Lemma inhibit_run_app (server : gf_server) (evs1 evs2 : list inhibit_event) :
  inhibit_run server (evs1 ++ evs2)
  = (server' ← inhibit_run server evs1; inhibit_run server' evs2).
Proof.
  revert server. induction evs1 as [| ev evs1 IH]; intros server; simpl; [done |].
  destruct (inhibit_step server ev) as [server1 |]; simpl; [apply IH | done].
Qed.

(** On a zeroed head, the events that return change nothing. *)
Lemma inhibit_step_zeroed (server server' : gf_server) (ev : inhibit_event) :
  inhibitors server = wl_zeroed -> inhibit_step server ev = Some server' -> server' = server.
Proof.
  intros Hzero. destruct ev as [[inhibitor |] | inhibitor]; simpl.
  - unfold handle_idle_inhibitor_v1_new. by rewrite Hzero.
  - by intros [= <-].
  - rewrite Hzero. cbn [wl_head_elements].
    rewrite bool_decide_eq_false_2 by apply not_elem_of_nil. by intros [= <-].
Qed.

Lemma inhibit_run_zeroed (server server' : gf_server) (evs : list inhibit_event) :
  inhibitors server = wl_zeroed -> inhibit_run server evs = Some server' -> server' = server.
Proof.
  intros Hzero. induction evs as [| ev evs IH]; simpl; [by intros [= <-] |].
  destruct (inhibit_step server ev) as [server1 |] eqn:Hstep; simpl; [| done].
  apply inhibit_step_zeroed in Hstep as ->; done.
Qed.

(** What the handlers do on a head that was initialised: every event
    returns, and the flag of the notifier is the non-emptiness of the
    list. *)
Lemma inhibit_step_linked (server : gf_server) (ev : inhibit_event) (l : list addr) :
  inhibitors server = wl_linked l ->
  idle_inhibited server = negb (wl_list_empty l) ->
  exists server' l',
    inhibit_step server ev = Some server' /\ inhibitors server' = wl_linked l' /\
    idle_inhibited server' = negb (wl_list_empty l') /\
    (l' <> l -> pushed_since (length (calls server)) server' = [negb (wl_list_empty l')]).
Proof.
  intros Hl Hflag. destruct ev as [[inhibitor |] | inhibitor]; simpl.
  - unfold handle_idle_inhibitor_v1_new. rewrite Hl. simpl.
    eexists _, (inhibitor :: l). split; [done |]. split; [done |]. split; [done |].
    intros _. unfold pushed_since. simpl. by rewrite drop_app_length.
  - by exists server, l.
  - rewrite Hl. simpl. case_bool_decide; [| by exists server, l].
    unfold handle_destroy. rewrite Hl.
    eexists _, (wl_list_remove inhibitor l). split; [done |]. split; [done |].
    split; [done |]. intros _. unfold pushed_since. simpl. by rewrite drop_app_length.
Qed.

Lemma inhibit_run_linked (evs : list inhibit_event) (server : gf_server) (l : list addr) :
  inhibitors server = wl_linked l ->
  idle_inhibited server = negb (wl_list_empty l) ->
  exists server' l',
    inhibit_run server evs = Some server' /\ inhibitors server' = wl_linked l' /\
    idle_inhibited server' = negb (wl_list_empty l').
Proof.
  revert server l. induction evs as [| ev evs IH]; intros server l Hl Hflag; simpl.
  - by exists server, l.
  - destruct (inhibit_step_linked server ev l Hl Hflag) as (server1 & l1 & -> & Hl1 & Hf1 & _).
    simpl. by apply (IH server1 l1).
Qed.

(** With the head initialised the handlers do what C8 says: after every
    sequence of creations and destructions the flag is the non-emptiness
    of the list, and the first inhibitor sets it. *)
Lemma inhibitors_tracked_once_initialised (mode : gameframe_multi_output_mode) (vt : bool)
    (evs : list inhibit_event) (inhibitor : addr) :
  (exists server' l',
     inhibit_run (server_with_inhibitors_init mode vt) evs = Some server' /\
     inhibitors server' = wl_linked l' /\
     idle_inhibited server' = negb (wl_list_empty l')) /\
  exists server',
    handle_idle_inhibitor_v1_new (Some inhibitor) (server_with_inhibitors_init mode vt)
    = Some server' /\
    inhibitors server' = wl_linked [inhibitor] /\ idle_inhibited server' = true /\
    pushed_since 0 server' = [true].
Proof.
  split; [by apply (inhibit_run_linked evs _ []) |].
  eexists. split; [reflexivity |]. done.
Qed.

(** C8.  The code does not do what C8 says.  On the server as [main]
    sets it up, whose [inhibitors] head was never initialised, the
    handler of the first inhibitor that is allocated does not return (it
    writes through NULL in [wl_list_insert]), after whatever events came
    before; the events that do return (failed allocations) leave the
    server as it was, so no value is ever pushed to the idle notifier and
    its flag is never set, although a client holds an inhibitor; and the
    emptiness test on that head answers "not empty" while no inhibitor is
    linked. *)
Theorem first_inhibitor_is_never_registered (mode : gameframe_multi_output_mode) (vt : bool)
    (evs : list inhibit_event) (inhibitor : addr) :
  let server := server_init mode vt in
  handle_idle_inhibitor_v1_new (Some inhibitor) server = None /\
  inhibit_run server (evs ++ [InhibitorNew (Some inhibitor)]) = None /\
  (forall server', inhibit_run server evs = Some server' ->
                   idle_inhibited server' = false /\ pushed_since 0 server' = []) /\
  wl_head_elements (inhibitors server) = [] /\
  negb (wl_head_empty (inhibitors server)) = true.
Proof.
  simpl. split; [done |]. split; [| split; [| done]].
  - rewrite inhibit_run_app.
    destruct (inhibit_run (server_init mode vt) evs) as [server' |] eqn:Hrun; [| done].
    by apply inhibit_run_zeroed in Hrun as ->.
  - intros server' Hrun. by apply inhibit_run_zeroed in Hrun as ->.
Qed.

End IdleInhibitProperties.

(** ** Outputs *)

Section OutputProperties.
Import Output.

Variable WLR_HAS_X11_BACKEND : bool.

Lemma filter_ne_absent (a : addr) (l : list addr) :
  a ∉ l -> filter (fun b => b <> a) l = l.
Proof.
  induction l as [| x l IH]; intros Hnotin; [done |].
  apply not_elem_of_cons in Hnotin as [Hne Hnotin].
  rewrite filter_cons_True by done. by rewrite IH.
Qed.

Lemma unlink_addrs (a : addr) (l : list gf_output) :
  NoDup (map wlr_output l) ->
  map wlr_output (unlink a l) = filter (fun b => b <> a) (map wlr_output l).
Proof.
  induction l as [| o l IH]; intros Hnodup; [done |].
  simpl in *. apply NoDup_cons in Hnodup as [Hnotin Hnodup].
  destruct (decide (wlr_output o = a)) as [<- | Hne].
  - rewrite filter_cons_False by (intros Hne; by apply Hne).
    by rewrite filter_ne_absent.
  - rewrite filter_cons_True by done. simpl. by rewrite IH.
Qed.

Lemma commit_enabled_addrs (a : addr) (b : bool) (server : gf_server) :
  map wlr_output (outputs (commit_enabled a b server)) = map wlr_output (outputs server).
Proof.
  unfold commit_enabled. simpl. rewrite map_map. apply map_ext.
  intros o. by destruct (decide (wlr_output o = a)).
Qed.

Lemma commit_enabled_enabled (a : addr) (server : gf_server) (o : gf_output) :
  o ∈ outputs (commit_enabled a true server) -> wlr_output o = a -> enabled o = true.
Proof.
  unfold commit_enabled. simpl. rewrite list_elem_of_In, in_map_iff.
  intros [o' [<- _]]. destruct (decide (wlr_output o' = a)); simpl; [done |].
  intros Heq. done.
Qed.

(** What [output_enable] leaves of the server. *)
Lemma output_enable_spec (commit_ok : bool) (output : gf_output) (server server' : gf_server) :
  output_enable commit_ok output server = Some server' ->
  terminated server' = terminated server /\
  display_run server' = display_run server /\
  output_mode server' = output_mode server /\
  map wlr_output (outputs server') = map wlr_output (outputs server) /\
  calls server'
  = calls server ++ [wlr_output_commit_state (wlr_output output) true;
                     wlr_output_manager_v1_set_configuration] /\
  (forall a, a ∈ output_layout server' -> a ∈ output_layout server \/ a = wlr_output output) /\
  (commit_ok = true ->
   wlr_output output ∈ output_layout server' /\
   forall o, o ∈ outputs server' -> wlr_output o = wlr_output output -> enabled o = true) /\
  (commit_ok = false ->
   outputs server' = outputs server /\ output_layout server' = output_layout server).
Proof.
  unfold output_enable, output_layout_add_auto, update_output_manager_config.
  destruct commit_ok; simpl.
  - destruct (scene_output output); simpl; [| done].
    case_bool_decide as Hin; simpl; intros [= <-]; simpl.
    + repeat split; try done.
      * apply (commit_enabled_addrs _ true
                 (emit (wlr_output_commit_state (wlr_output output) true) server)).
      * by rewrite <- app_assoc.
      * by left.
      * intros o. apply (commit_enabled_enabled _
                 (emit (wlr_output_commit_state (wlr_output output) true) server)).
    + repeat split; try done.
      * apply (commit_enabled_addrs _ true
                 (emit (wlr_output_commit_state (wlr_output output) true) server)).
      * by rewrite <- app_assoc.
      * intros a. rewrite elem_of_app, list_elem_of_singleton. tauto.
      * apply elem_of_app. right. by left.
      * intros o. apply (commit_enabled_enabled _
                 (emit (wlr_output_commit_state (wlr_output output) true) server)).
  - intros [= <-]. simpl. repeat split; try done.
    + by rewrite <- app_assoc.
    + by left.
Qed.

Lemma handle_new_output_spec (e : new_output_env) (a : addr) (wl x11 : bool)
    (server : gf_server) :
  exists server',
    handle_new_output e a wl x11 server = Some server' /\
    terminated server' = terminated server /\
    display_run server' = display_run server /\
    output_mode server' = output_mode server /\
    map wlr_output (outputs server')
    = if init_render_ok e && calloc_ok e then a :: map wlr_output (outputs server)
      else map wlr_output (outputs server).
Proof.
  unfold handle_new_output, output_layout_add_auto, update_output_manager_config.
  destruct (init_render_ok e); simpl; [| by eexists].
  destruct (calloc_ok e); simpl; [| by eexists].
  destruct (new_scene_output e) as [so |]; simpl; [| by eexists].
  destruct (new_commit_ok e); simpl; [| by eexists].
  case_bool_decide; simpl; (eexists; split; [reflexivity |]); simpl;
    repeat split; try done;
    (f_equal; [by destruct (decide (a = a)) |]);
    rewrite map_map; apply map_ext; intros o; by destruct (decide (wlr_output o = a)).
Qed.

Lemma find_output_Some (a : addr) (l : list gf_output) (o : gf_output) :
  find_output a l = Some o -> wlr_output o = a /\ o ∈ l.
Proof.
  unfold find_output. intros Hfind. apply List.find_some in Hfind as [Hin Ha].
  rewrite bool_decide_eq_true in Ha.
  split; [done | by apply list_elem_of_In].
Qed.

Lemma NoDup_addrs (acc : list addr) (l : list gf_output) :
  map wlr_output l = reverse acc -> NoDup acc -> NoDup (map wlr_output l).
Proof. intros ->. by rewrite reverse_Permutation. Qed.

(** What [output_destroy] leaves of the server. *)
Lemma output_destroy_addrs (commit_ok : bool) (output : gf_output)
    (server server' : gf_server) :
  NoDup (map wlr_output (outputs server)) ->
  output_destroy WLR_HAS_X11_BACKEND commit_ok output server = Some server' ->
  map wlr_output (outputs server')
  = filter (fun b => b <> wlr_output output) (map wlr_output (outputs server)) /\
  terminated server' = terminated server /\
  output_mode server' = output_mode server.
Proof.
  intros Hnodup. unfold output_destroy. simpl.
  pose proof (unlink_addrs (wlr_output output) (outputs server) Hnodup) as Haddrs.
  destruct (wl_list_empty _ && is_nested_output _ _).
  { intros [= <-]. unfold server_terminate. simpl.
    destruct (terminated server) eqn:Ht; simpl; repeat split; congruence. }
  destruct (bool_decide _ && negb _); [| by intros [= <-]].
  destruct (unlink (wlr_output output) (outputs server)) as [| prev rest] eqn:Hrest;
    [by intros [= <-] |].
  destruct (output_enable commit_ok prev _) as [server1 |] eqn:Henable; simpl; [| done].
  intros [= <-]. simpl.
  destruct (output_enable_spec _ _ _ _ Henable) as (Ht & _ & Hm & Ha & _).
  simpl in *. rewrite Ha. done.
Qed.

Lemma output_step_outputs_are (mode : gameframe_multi_output_mode) (acc : list addr)
    (server server' : gf_server) (ev : output_event) :
  outputs_are mode acc server -> fresh_outputs acc [ev] = true ->
  output_step WLR_HAS_X11_BACKEND server ev = Some server' ->
  outputs_are mode (live_outputs acc [ev]) server'.
Proof.
  intros (Haddrs & Hnodup & Hterm & Hmode) Hfresh.
  destruct ev as [e a wl x11 | commit_ok a]; simpl in *.
  - destruct (handle_new_output_spec e a wl x11 server)
      as (server1 & -> & Ht & _ & Hm & Ha).
    intros [= <-]. apply andb_true_iff in Hfresh as [Hnotin _].
    apply negb_true_iff in Hnotin. rewrite bool_decide_eq_false in Hnotin.
    destruct (init_render_ok e && calloc_ok e).
    + repeat split; try congruence.
      * by rewrite Ha, Haddrs, reverse_snoc.
      * apply NoDup_app. repeat split; [done | | apply NoDup_singleton].
        intros x Hx Hx'. apply list_elem_of_singleton in Hx'. by subst.
    + repeat split; congruence.
  - destruct (find_output a (outputs server)) as [output |] eqn:Hfind.
    + apply find_output_Some in Hfind as [<- Hin]. intros Hdestroy.
      apply output_destroy_addrs in Hdestroy as (Ha & Ht & Hm);
        [| by eapply NoDup_addrs].
      repeat split; try congruence.
      * by rewrite Ha, Haddrs, filter_reverse.
      * by apply NoDup_filter.
    + intros [= <-]. unfold find_output in Hfind.
      assert (a ∉ acc) as Hnotin.
      { intros Hin. apply elem_of_reverse in Hin. rewrite <- Haddrs in Hin.
        apply list_elem_of_In, in_map_iff in Hin as [o [Ho Hin]].
        eapply List.find_none in Hfind; [| exact Hin]. simpl in Hfind.
        rewrite bool_decide_eq_false in Hfind. done. }
      rewrite filter_ne_absent by done. done.
Qed.

Lemma live_outputs_app (acc : list addr) (evs1 evs2 : list output_event) :
  live_outputs acc (evs1 ++ evs2) = live_outputs (live_outputs acc evs1) evs2.
Proof.
  revert acc. induction evs1 as [| ev evs1 IH]; intros acc; [done |].
  destruct ev; simpl; apply IH.
Qed.

Lemma output_run_outputs_are (mode : gameframe_multi_output_mode) (evs : list output_event)
    (acc : list addr) (server server' : gf_server) :
  outputs_are mode acc server -> fresh_outputs acc evs = true ->
  output_run WLR_HAS_X11_BACKEND server evs = Some server' ->
  outputs_are mode (live_outputs acc evs) server'.
Proof.
  revert acc server. induction evs as [| ev evs IH]; intros acc server Hinv Hfresh; simpl.
  - by intros [= <-].
  - destruct (output_step WLR_HAS_X11_BACKEND server ev) as [server1 |] eqn:Hstep;
      simpl; [| done].
    intros Hrun.
    assert (fresh_outputs acc [ev] = true /\
            fresh_outputs (live_outputs acc [ev]) evs = true)
      as [Hfresh1 Hfresh2].
    { destruct ev; simpl in *; [| done].
      apply andb_true_iff in Hfresh as [-> ->]. done. }
    pose proof (output_step_outputs_are mode acc server server1 ev Hinv Hfresh1 Hstep)
      as Hinv1.
    specialize (IH _ _ Hinv1 Hfresh2 Hrun).
    by destruct ev.
Qed.

Lemma unlink_subset (a : addr) (l : list gf_output) (o : gf_output) :
  o ∈ unlink a l -> o ∈ l.
Proof.
  induction l as [| x l IH]; simpl; [done |].
  destruct (decide (wlr_output x = a)).
  - intros Hin. by right.
  - intros Hin. apply elem_of_cons in Hin as [-> | Hin]; [by left | right; by apply IH].
Qed.

Lemma output_enable_returns (commit_ok : bool) (output : gf_output) (server : gf_server) :
  (commit_ok = true -> is_Some (scene_output output)) ->
  exists server', output_enable commit_ok output server = Some server'.
Proof.
  intros Hso. unfold output_enable, output_layout_add_auto.
  destruct commit_ok; simpl; [| eauto].
  destruct (Hso eq_refl) as [so ->]. simpl. eauto.
Qed.

(** [output_destroy] on a server that is not [terminated], whose outputs
    have distinct [wlr_output]s; the output that a successful commit adds
    to the layout has its scene output. *)
Lemma output_destroy_spec (commit_ok : bool) (output : gf_output) (server : gf_server) :
  terminated server = false ->
  NoDup (map wlr_output (outputs server)) ->
  (output_mode server = GAMEFRAME_MULTI_OUTPUT_MODE_LAST -> commit_ok = true ->
   promoted_has_scene_output output server = true) ->
  exists server',
    output_destroy WLR_HAS_X11_BACKEND commit_ok output server = Some server' /\
    (wlr_output output ∉ output_layout server') /\
    match outputs server' with
    | [] =>
        calls server' = calls server /\
        display_run server'
        = if is_nested_output WLR_HAS_X11_BACKEND output then false else display_run server
    | prev :: _ =>
        display_run server' = display_run server /\
        if bool_decide (output_mode server = GAMEFRAME_MULTI_OUTPUT_MODE_LAST) then
          calls server'
          = calls server ++ [wlr_output_commit_state (wlr_output prev) true;
                             wlr_output_manager_v1_set_configuration;
                             view_position_all] /\
          (commit_ok = true ->
           enabled prev = true /\ wlr_output prev ∈ output_layout server') /\
          (commit_ok = false ->
           prev ∈ outputs server /\
           output_layout server'
           = filter (fun a => a <> wlr_output output) (output_layout server))
        else calls server' = calls server
    end.
Proof.
  intros Hterm Hnodup Hscene.
  assert (wlr_output output
          ∉ filter (fun a => a <> wlr_output output) (output_layout server)) as Hlayout.
  { intros Hin. apply list_elem_of_filter in Hin as [Hne _]. by apply Hne. }
  pose proof (unlink_addrs (wlr_output output) (outputs server) Hnodup) as Haddrs.
  unfold output_destroy. simpl.
  destruct (unlink (wlr_output output) (outputs server)) as [| prev rest] eqn:Hrest; simpl.
  - destruct (is_nested_output WLR_HAS_X11_BACKEND output); simpl.
    + unfold server_terminate. simpl. rewrite Hterm.
      eexists. split; [reflexivity |]. simpl. rewrite ?Hrest. done.
    + rewrite andb_false_r. eexists. split; [reflexivity |]. simpl. rewrite ?Hrest. done.
  - case_bool_decide as Hlast; simpl.
    + assert (commit_ok = true -> is_Some (scene_output prev)) as Hso.
      { intros Hcommit. specialize (Hscene Hlast Hcommit).
        unfold promoted_has_scene_output in Hscene. rewrite Hrest in Hscene.
        by destruct (scene_output prev). }
      destruct (output_enable_returns commit_ok prev
                  (output_layout_remove output (set_outputs (prev :: rest) server)) Hso)
        as [server1 Henable].
      rewrite Henable. simpl.
      destruct (output_enable_spec _ _ _ _ Henable)
        as (_ & Hrun & _ & Ha & Hcalls & Hlay & Hok & Hrefused). simpl in *.
      assert (wlr_output prev <> wlr_output output) as Hne.
      { assert (wlr_output prev
                ∈ filter (fun b => b <> wlr_output output) (map wlr_output (outputs server)))
          as Hin by (rewrite <- Haddrs; left).
        by apply list_elem_of_filter in Hin as [Hne _]. }
      eexists. split; [reflexivity |]. simpl. split.
      * intros Hin. apply Hlay in Hin as [Hin | Heq]; [done | by apply Hne].
      * destruct (outputs server1) as [| prev' rest'] eqn:Hout; [done |].
        simpl in Ha. injection Ha as Hhead _. rewrite Hhead. split; [done |].
        split; [by rewrite Hcalls, <- app_assoc |]. split.
        -- intros Hcommit. destruct (Hok Hcommit) as [Hin Henabled].
           split; [apply Henabled; [by left | done] | done].
        -- intros Hcommit. destruct (Hrefused Hcommit) as [Houts Hlayout'].
           injection Houts as -> _. split; [| done].
           apply (unlink_subset (wlr_output output)). rewrite Hrest. by left.
    + eexists. split; [reflexivity |]. simpl. rewrite ?Hrest. done.
Qed.

(** C4, amended.  On a server whose outputs came and went as the events
    [evs] say, the destruction of output [output] returns; [output] is
    then in the layout no more; the outputs left are the live ones, newest
    first.  If none is left: the run flag of the display is cleared when
    [output] was nested, and untouched otherwise.  If some are left, the
    first, [prev], is the most recently added of them, and under the
    [last] mode its enabling is committed, the output configuration is
    refreshed and [view_position_all] is called: when the backend accepts
    the commit, [prev] (taken to have its scene output) is enabled and in
    the layout; when it refuses, [prev] is left as it was and the layout
    only lost [output].  Under the [extend] mode nothing is called. *)
Theorem output_destroy_promotes_last (mode : gameframe_multi_output_mode) (vt : bool)
    (evs : list output_event) (server : gf_server) (commit_ok : bool) (output : gf_output) :
  fresh_outputs [] evs = true ->
  output_run WLR_HAS_X11_BACKEND (set_display_run true (server_init mode vt)) evs
  = Some server ->
  output ∈ outputs server ->
  (mode = GAMEFRAME_MULTI_OUTPUT_MODE_LAST -> commit_ok = true ->
   promoted_has_scene_output output server = true) ->
  exists server',
    output_destroy WLR_HAS_X11_BACKEND commit_ok output server = Some server' /\
    (wlr_output output ∉ output_layout server') /\
    map wlr_output (outputs server')
    = reverse (live_outputs [] (evs ++ [OutputDestroyed commit_ok (wlr_output output)])) /\
    match outputs server' with
    | [] =>
        calls server' = calls server /\
        display_run server'
        = if is_nested_output WLR_HAS_X11_BACKEND output then false else display_run server
    | prev :: _ =>
        last (live_outputs [] (evs ++ [OutputDestroyed commit_ok (wlr_output output)]))
        = Some (wlr_output prev) /\
        display_run server' = display_run server /\
        if bool_decide (mode = GAMEFRAME_MULTI_OUTPUT_MODE_LAST) then
          calls server'
          = calls server ++ [wlr_output_commit_state (wlr_output prev) true;
                             wlr_output_manager_v1_set_configuration;
                             view_position_all] /\
          (commit_ok = true ->
           enabled prev = true /\ wlr_output prev ∈ output_layout server') /\
          (commit_ok = false ->
           prev ∈ outputs server /\
           output_layout server'
           = filter (fun a => a <> wlr_output output) (output_layout server))
        else calls server' = calls server
    end.
Proof.
  intros Hfresh Hrun Hin Hscene.
  assert (outputs_are mode [] (set_display_run true (server_init mode vt))) as Hinit
    by (repeat split; apply NoDup_nil_2).
  destruct (output_run_outputs_are mode evs [] _ _ Hinit Hfresh Hrun)
    as (Haddrs & Hnodup & Hterm & Hmode).
  pose proof (NoDup_addrs _ _ Haddrs Hnodup) as Hnd.
  rewrite <- Hmode in Hscene.
  destruct (output_destroy_spec commit_ok output server Hterm Hnd Hscene)
    as (server' & Hdestroy & Hlayout & Hcases).
  exists server'. split; [done |]. split; [done |].
  destruct (output_destroy_addrs _ _ _ _ Hnd Hdestroy) as (Ha & _ & _).
  assert (map wlr_output (outputs server')
          = reverse (live_outputs []
                       (evs ++ [OutputDestroyed commit_ok (wlr_output output)]))) as Hlive.
  { rewrite live_outputs_app. simpl. by rewrite Ha, Haddrs, filter_reverse. }
  split; [done |].
  destruct (outputs server') as [| prev rest]; [done |].
  rewrite Hmode in Hcases. destruct Hcases as [Hrun' Hcalls].
  split; [| done].
  apply (f_equal reverse) in Hlive. rewrite reverse_involutive in Hlive.
  rewrite <- Hlive. simpl. rewrite reverse_cons. apply last_snoc.
Qed.

End OutputProperties.

Section OutputScenario.
Import Output.

(** C4 as stated fails: under the [last] mode, B was hotplugged while
    the backend refused the commit that enables it, and C is destroyed
    while the backend refuses again.  B is the most recently added output
    that is left; the views are repositioned; but B is not enabled and
    not in the layout. *)
Lemma promoted_output_stays_disabled :
  output_run false last_mode_server refused_outputs = Some refused_outputs_server /\
  exists server' prev rest,
    output_destroy false false output_C refused_outputs_server = Some server' /\
    outputs server' = prev :: rest /\
    wlr_output prev = 2%positive /\
    last (live_outputs [] (refused_outputs ++ [OutputDestroyed false 3])) = Some 2%positive /\
    enabled prev = false /\
    (2%positive ∉ output_layout server') /\
    drop (length (calls refused_outputs_server)) (calls server')
    = [wlr_output_commit_state 2 true; wlr_output_manager_v1_set_configuration;
       view_position_all].
Proof.
  split; [reflexivity |]. eexists _, _, _. split; [reflexivity |].
  split; [reflexivity |]. split; [reflexivity |]. split; [reflexivity |].
  split; [reflexivity |]. split; [| reflexivity].
  vm_compute. intros Hin. apply list_elem_of_singleton in Hin. discriminate.
Qed.

Lemma output_destroy_promotes_last_witness :
  exists server',
    output_destroy false true output_C three_outputs_server = Some server' /\
    map wlr_output (outputs server') = [2%positive; 1%positive] /\
    last (live_outputs [] (three_outputs ++ [OutputDestroyed true 3])) = Some 2%positive /\
    drop (length (calls three_outputs_server)) (calls server')
    = [wlr_output_commit_state 2 true; wlr_output_manager_v1_set_configuration;
       view_position_all].
Proof.
  destruct (output_destroy_promotes_last false GAMEFRAME_MULTI_OUTPUT_MODE_LAST false
              three_outputs three_outputs_server true output_C)
    as (server' & Hdestroy & _ & Haddrs & _).
  - reflexivity.
  - reflexivity.
  - left.
  - reflexivity.
  - exists server'. split; [exact Hdestroy |].
    vm_compute in Hdestroy. injection Hdestroy as <-.
    repeat split; reflexivity.
Defined.

End OutputScenario.

(** ** Output configuration requests *)

Section OutputConfigProperties.
Import Output.

(** A test request builds and prepares the state and stops there: the
    only call is the preparation of the swapchains, the answer is that of
    the preparation, and the server is otherwise as before. *)
Lemma output_config_apply_test (e : config_env) (server : gf_server) :
  exists ok server',
    output_config_apply e true server = Some (ok, server') /\
    ok = match build_state e with Some _ => prepare_ok e | None => false end /\
    calls server'
    = calls server ++ match build_state e with
                      | Some _ => [wlr_output_swapchain_manager_prepare]
                      | None => []
                      end /\
    outputs server' = outputs server /\
    output_layout server' = output_layout server /\
    display_run server' = display_run server.
Proof.
  unfold output_config_apply. destruct (build_state e) as [states |].
  - rewrite orb_true_r. eexists _, _. split; [reflexivity |]. done.
  - eexists _, _. split; [reflexivity |]. by rewrite app_nil_r.
Qed.

(** Both handlers end in [send_succeeded], whatever [output_config_apply]
    answered. *)
Lemma handlers_send_succeeded (e : config_env) (config : addr) (server server' : gf_server) :
  handle_output_manager_apply e config server = Some server' \/
  handle_output_manager_test e config server = Some server' ->
  last (calls server') = Some (wlr_output_configuration_v1_send_succeeded config).
Proof.
  unfold handle_output_manager_apply, handle_output_manager_test.
  intros [Hh | Hh];
    destruct (output_config_apply e _ server) as [[ok server1] |]; simpl in Hh;
    simplify_eq; simpl; apply last_snoc.
Qed.

(** C5.  A request that is not a test, for the one output of the server,
    whose commit the backend refuses: [output_config_apply] builds the
    state, commits and answers false, and [handle_output_manager_apply]
    sends "succeeded" to the requesting client all the same. *)
Theorem apply_reports_success_after_refused_commit :
  exists server1 server2,
    output_config_apply refused_commit false one_output_server = Some (false, server1) /\
    handle_output_manager_apply refused_commit 77 one_output_server = Some server2 /\
    drop (length (calls one_output_server)) (calls server2)
    = [wlr_output_swapchain_manager_prepare; wlr_scene_output_build_state 1;
       wlr_backend_commit; wlr_output_swapchain_manager_finish;
       wlr_output_configuration_v1_send_succeeded 77].
Proof. eexists _, _. repeat split; vm_compute; reflexivity. Qed.

End OutputConfigProperties.

(** * Further properties *)

(** ** Process supervisor: exit codes, setup failures, the loop *)

Section SupervisorMore.
Import Wait Cred Supervisor SupervisorCases.

Lemma WEXITSTATUS_range (status : Z) : 0 <= WEXITSTATUS status <= 255.
Proof.
  unfold WEXITSTATUS. rewrite Z.shiftr_land.
  change (Z.shiftr 65280 8) with (Z.ones 8). rewrite Z.land_ones by lia.
  change (2 ^ 8) with 256.
  pose proof (Z.mod_pos_bound (Z.shiftr status 8) 256 ltac:(lia)). lia.
Qed.

Lemma WTERMSIG_range (status : Z) : 0 <= WTERMSIG status <= 127.
Proof.
  unfold WTERMSIG. change (Z.land status 127) with (Z.land status (Z.ones 7)).
  rewrite Z.land_ones by lia.
  change (2 ^ 7) with 128.
  pose proof (Z.mod_pos_bound status 128 ltac:(lia)). lia.
Qed.

(** X1.  Whatever status word [waitpid] stores, the exit code that
    [cleanup_primary_client] derives from it lies in 0..255. *)
Theorem cleanup_exit_code_range (waitpid : Z -> Z) (pid : Z) :
  0 <= cleanup_primary_client waitpid pid <= 255.
Proof.
  unfold cleanup_primary_client.
  pose proof (WEXITSTATUS_range (waitpid pid)).
  pose proof (WTERMSIG_range (waitpid pid)).
  destruct (WIFEXITED _); [lia |]. destruct (WIFSIGNALED _); lia.
Qed.

(** X2.  [main] tests the outcome of these steps of the setup: the
    parsing of the arguments, XDG_RUNTIME_DIR, the display, the backend,
    the drop of the permissions, the renderer (GLES2, then any), the
    allocator, the output layout, the scene, the compositor, the
    subcompositor, the data device and primary selection managers, the
    seat, the socket, the start of the backend, and the presence of a
    command.  When one of them fails (and [-v] did not end the process
    inside [parse_args]), [main] returns 1, has forked no client and has
    not waited, whatever the loop and the client would have done.  The
    objects that [main] creates and uses without a test (the idle
    notifier and inhibit manager, the xdg-shell, the decoration, output
    and other managers, Xwayland) are not among these steps: the model of
    [main] has them created. *)
Theorem setup_failure_exits_1 (e : env) :
  parse_args e <> ParseExit -> setup_ok e = false ->
  main e = Some (mkResult 1 None false).
Proof.
  unfold setup_ok, main, or_return_1, or_goto_end, at_end.
  destruct (drop_permissions (process_creds e)) as [dropped c]. simpl.
  intros Hparse Hsetup.
  repeat (case_match; simplify_eq; simpl in *; try discriminate; try reflexivity).
Qed.

Lemma setup_failure_exits_1_witness :
  main env_no_runtime_dir = Some (mkResult 1 None false).
Proof.
  apply (setup_failure_exits_1 env_no_runtime_dir); [discriminate | reflexivity].
Defined.

(** X3.  When the spawn fails after the fork, because a close-on-exec
    flag cannot be set, [main] returns 1 although the client runs: the
    loop is not entered and the client is not waited for. *)
Theorem spawn_failure_after_fork (e : env) (pid : Z) :
  setup_ok e = true -> pipe_ok e = true -> fork e = ForkParent pid ->
  set_cloexec_read e = false \/ set_cloexec_write e = false ->
  main e = Some (mkResult 1 (Some (snd (drop_permissions (process_creds e)))) false).
Proof.
  intros Hsetup Hpipe Hfork Hcloexec. rewrite (main_after_setup e Hsetup). simpl.
  unfold spawn_primary_client. rewrite Hpipe, Hfork. simpl.
  destruct Hcloexec as [-> | ->]; simpl; [reflexivity |].
  by destruct (set_cloexec_read e).
Qed.

Lemma spawn_failure_after_fork_witness :
  main env_cloexec_fails = Some (mkResult 1 (Some user_creds) false).
Proof.
  apply (spawn_failure_after_fork env_cloexec_fails 42);
    [reflexivity | reflexivity | reflexivity | left; reflexivity].
Defined.

Lemma run_loop_None (batches : list (list loop_event)) (server : gf_server) :
  terminated server = false -> display_run server = true ->
  (run_loop batches server = None <->
   existsb requests_termination (concat batches) = false).
Proof.
  revert server. induction batches as [| batch rest IH]; intros server Hterm Hrun; simpl.
  - done.
  - unfold wl_event_loop_dispatch. rewrite existsb_app.
    pose proof (foldl_dispatch_display_run batch server) as Hbatch.
    rewrite Hterm, Hrun in Hbatch. simpl in Hbatch. rewrite andb_true_r in Hbatch.
    rewrite Hbatch. destruct (existsb requests_termination batch); simpl; [done |].
    apply IH; [by rewrite foldl_dispatch_terminated | by rewrite Hbatch].
Qed.

(** X4.  After a complete setup and a successful spawn, [main] returns
    exactly when one of the callbacks that the loop is given requests
    termination: the liveness pipe, SIGINT, SIGTERM, or another handler
    that calls [server_terminate]. *)
Theorem main_returns_iff_termination_requested (e : env) (pid : Z) :
  setup_ok e = true -> spawn_primary_client e = Spawned pid ->
  (is_Some (main e) <->
   existsb requests_termination (concat (loop_events e)) = true).
Proof.
  intros Hsetup Hspawn. rewrite (main_after_setup e Hsetup), Hspawn. simpl.
  pose proof (run_loop_None (loop_events e) (server_at_run e) eq_refl eq_refl) as Hnone.
  destruct (run_loop (loop_events e) (server_at_run e)) as [server |].
  - split.
    + intros _. destruct (existsb _ _); [done |]. discriminate (proj2 Hnone eq_refl).
    + intros _. unfold at_end. by destruct (return_app_code server).
  - rewrite (proj1 Hnone eq_refl). split; [by intros [? ?] | done].
Qed.

Lemma main_returns_iff_termination_requested_witness :
  is_Some (main (env_with user_creds true (ForkParent 42) [[EvSignal 1]; [EvSignal SIGINT]] 0))
  <-> true = true.
Proof.
  apply (main_returns_iff_termination_requested
           (env_with user_creds true (ForkParent 42) [[EvSignal 1]; [EvSignal SIGINT]] 0) 42);
    reflexivity.
Defined.

(** X5.  For a process whose real uid and gid are not 0,
    [drop_permissions] fails exactly when its effective uid is not 0 and
    its saved uid or saved gid is 0, that is when root could be regained
    after the drop. *)
Theorem drop_permissions_fails_iff (c : creds) :
  ruid c <> 0 -> rgid c <> 0 ->
  (fst (drop_permissions c) = false <-> euid c <> 0 /\ (suid c = 0 \/ sgid c = 0)).
Proof.
  destruct c as [ru eu su rg eg sg]. simpl. intros Hru Hrg.
  unfold drop_permissions, bind, ret, getuid, geteuid, getgid, getegid, setuid, setgid.
  simpl.
  repeat (case_match; simpl in *; simplify_eq; try lia);
    split; intros; simplify_eq; try lia; try done.
Qed.

Lemma drop_permissions_fails_iff_witness :
  fst (drop_permissions (mkCreds 1000 1000 0 1000 1000 1000)) = false
  <-> 1000 <> 0 /\ (0 = 0 \/ 1000 = 0).
Proof.
  apply (drop_permissions_fails_iff (mkCreds 1000 1000 0 1000 1000 1000)); simpl; lia.
Defined.

(** X6.  When [drop_permissions] lets through a process whose real uid and
    gid are not 0, the real ids are unchanged and the effective ids are
    the real ones. *)
Theorem drop_permissions_effective_ids (c c' : creds) :
  ruid c <> 0 -> rgid c <> 0 -> drop_permissions c = (true, c') ->
  ruid c' = ruid c /\ rgid c' = rgid c /\ euid c' = ruid c /\ egid c' = rgid c.
Proof.
  destruct c as [ru eu su rg eg sg]. simpl. intros Hru Hrg.
  unfold drop_permissions, bind, ret, getuid, geteuid, getgid, getegid, setuid, setgid.
  repeat (cbn -[Z.eqb]; match goal with
                        | |- context [?a =? ?b] => destruct (Z.eqb_spec a b)
                        end);
    cbn -[Z.eqb]; intros; simplify_eq; cbn; repeat split; lia.
Qed.

Lemma drop_permissions_effective_ids_witness :
  ruid user_creds = 1000 /\ rgid user_creds = 1000 /\
  euid user_creds = 1000 /\ egid user_creds = 1000.
Proof.
  apply (drop_permissions_effective_ids setuid_root_creds user_creds);
    [simpl; lia | simpl; lia | reflexivity].
Defined.

(** X7.  Once the display is destroyed ([terminated] set), no callback of
    the loop changes the run flag any more: termination requests are
    dropped; and on any server a second [server_terminate] changes
    nothing. *)
Theorem terminate_is_guarded (server : gf_server) (evs : list loop_event) :
  server_terminate (server_terminate server) = server_terminate server /\
  display_run (foldl dispatch (handle_display_destroy server) evs) = display_run server.
Proof.
  split.
  - unfold server_terminate. destruct (terminated server) eqn:Hterm; simpl;
      by rewrite Hterm.
  - rewrite foldl_dispatch_display_run. simpl. by rewrite !andb_false_r, andb_true_r.
Qed.

End SupervisorMore.

(** ** Descriptor flags *)

Section FdProperties.
Import Fd.

(** X8.  On an open descriptor with flags [flags >= 0], [set_cloexec]
    succeeds, sets bit 0 of the flags, keeps the other bits and leaves the
    other descriptors alone; on a descriptor that is not open it fails and
    changes nothing. *)
Theorem set_cloexec_sets_only_the_flag (fds : gmap Z Z) (fd flags : Z) :
  (fds !! fd = None -> set_cloexec fds fd = (false, fds)) /\
  (fds !! fd = Some flags -> 0 <= flags ->
   exists flags',
     set_cloexec fds fd = (true, <[fd := flags']> fds) /\
     Z.testbit flags' 0 = true /\
     (forall n, n <> 0 -> Z.testbit flags' n = Z.testbit flags n)).
Proof.
  unfold set_cloexec, fcntl_getfd, fcntl_setfd. split.
  - by intros ->.
  - intros -> Hflags. rewrite (proj2 (Z.eqb_neq flags (-1))) by lia. simpl.
    exists (Z.lor flags FD_CLOEXEC). split; [reflexivity |]. split.
    + rewrite <- Z.bit0_odd, Z.lor_spec. by rewrite orb_true_r.
    + intros n Hn. rewrite Z.lor_spec.
      assert (Z.testbit FD_CLOEXEC n = false) as ->; [| by rewrite orb_false_r].
      destruct n as [| n | n]; [done | by destruct n | done].
Qed.

Lemma set_cloexec_sets_only_the_flag_witness :
  exists flags',
    set_cloexec {[ 3 := 4 ]} 3 = (true, <[3 := flags']> {[ 3 := 4 ]}) /\
    Z.testbit flags' 0 = true /\
    (forall n, n <> 0 -> Z.testbit flags' n = Z.testbit 4 n).
Proof.
  apply (proj2 (set_cloexec_sets_only_the_flag {[ 3 := 4 ]} 3 4)); [reflexivity | lia].
Defined.

End FdProperties.

(** ** Seat: capabilities, cursor image, keyboard groups *)

Section SeatMore.
Import Seat SeatPointer.

(** X9.  After any sequence of device events on a new seat, each
    capability bit can be read back on its own: the keyboard, pointer and
    touch bits are set exactly when the list of keyboard groups, of
    pointers and of touch devices is not empty, and no other bit is
    set. *)
Theorem capability_bits (evs : list seat_event) :
  let seat := foldl seat_step seat_create evs in
  (Z.land (capabilities seat) WL_SEAT_CAPABILITY_KEYBOARD <> 0
   <-> keyboard_groups seat <> []) /\
  (Z.land (capabilities seat) WL_SEAT_CAPABILITY_POINTER <> 0 <-> pointers seat <> []) /\
  (Z.land (capabilities seat) WL_SEAT_CAPABILITY_TOUCH <> 0 <-> touch seat <> []) /\
  0 <= capabilities seat <= 7.
Proof.
  simpl. destruct (seat_run_derived evs) as [-> _]. unfold derived_capabilities.
  destruct (keyboard_groups _), (pointers _), (touch _); vm_compute;
    repeat split; intros; congruence.
Qed.

Lemma update_capabilities_idempotent (seat : gf_seat) :
  update_capabilities (update_capabilities seat) = update_capabilities seat.
Proof.
  destruct seat as [kg ps ts caps cur fs kb cs]. unfold update_capabilities. simpl.
  destruct kg, ps, ts; reflexivity.
Qed.

Lemma update_capabilities_derived_id (seat : gf_seat) :
  capabilities_derived seat -> update_capabilities seat = seat.
Proof.
  destruct seat as [kg ps ts caps cur fs kb cs]. unfold capabilities_derived.
  simpl. intros [-> ->]. unfold update_capabilities, derived_capabilities. simpl.
  destruct kg, ps, ts; reflexivity.
Qed.

(** X10.  On a seat whose capabilities are the derived ones, a virtual
    pointer is handled like any new pointer: the second
    [update_capabilities] of [handle_virtual_pointer] changes nothing. *)
Theorem virtual_pointer_like_pointer (alloc : bool) (p : addr) (seat : gf_seat) :
  capabilities_derived seat ->
  handle_virtual_pointer alloc p seat = handle_new_pointer alloc p seat.
Proof.
  intros Hderived. unfold handle_virtual_pointer, handle_new_pointer.
  destruct alloc; simpl.
  - apply update_capabilities_idempotent.
  - by apply update_capabilities_derived_id.
Qed.

Lemma virtual_pointer_like_pointer_witness :
  handle_virtual_pointer true 9 seat_create = handle_new_pointer true 9 seat_create.
Proof.
  apply (virtual_pointer_like_pointer true 9 seat_create). split; reflexivity.
Defined.

Lemma update_capabilities_no_client_cursor (seat : gf_seat) (surface : option addr) :
  cursor (update_capabilities seat) <> CursorClientSurface surface.
Proof.
  unfold update_capabilities. by case_match.
Qed.

(** X11.  A cursor image that a client has set survives a device event
    only when the event leaves the whole seat as it was: every device
    handler that runs to its end replaces the client's image by the
    default image or by none. *)
Theorem client_cursor_survives_only_noop (seat : gf_seat) (ev : seat_event)
    (surface : option addr) :
  cursor (seat_step seat ev) = CursorClientSurface surface -> seat_step seat ev = seat.
Proof.
  destruct ev as [e device | device]; simpl.
  - destruct device as [k virtual | p | t | a]; simpl; [| | | done].
    + intros Hc. by apply update_capabilities_no_client_cursor in Hc.
    + unfold handle_new_pointer. destruct (calloc_ok e); simpl; [| done].
      intros Hc. by apply update_capabilities_no_client_cursor in Hc.
    + unfold handle_new_touch. destruct (calloc_ok e); simpl; [| done].
      intros Hc. by apply update_capabilities_no_client_cursor in Hc.
  - destruct device as [k virtual | p | t | a]; simpl; try done.
    + case_bool_decide; [| done]. intros Hc.
      by apply update_capabilities_no_client_cursor in Hc.
    + case_bool_decide; [| done]. intros Hc.
      by apply update_capabilities_no_client_cursor in Hc.
Qed.

Lemma client_cursor_survives_only_noop_witness :
  let seat :=
    handle_request_set_cursor (Some 5%positive) (Some 5%positive) (Some 6%positive) seat_create in
  seat_step seat (DeviceRemoved (WLR_INPUT_DEVICE_POINTER 9)) = seat.
Proof.
  apply (client_cursor_survives_only_noop _ _ (Some 6%positive)). reflexivity.
Defined.

(** X12.  [gf_keyboard_group_add]: a virtual keyboard never joins an
    existing group and, when the allocation succeeds, gets a virtual group
    of its own at the head of the list; a keyboard that is not virtual and
    that some group that is not virtual accepts leaves the seat as it is;
    one that no such group accepts gets a new group that is not virtual.
    In every case the old groups stay, in their order. *)
Theorem keyboard_group_add_cases (accepts : addr -> addr -> bool) (new_group : option addr)
    (keyboard : addr) (virtual : bool) (seat : gf_seat) :
  let seat' := gf_keyboard_group_add accepts new_group keyboard virtual seat in
  let joins :=
    existsb (fun group => negb (is_virtual group) && accepts (wlr_group group) keyboard)
      (keyboard_groups seat) in
  (negb virtual && joins = true -> seat' = seat) /\
  (negb virtual && joins = false ->
   forall g, new_group = Some g ->
             keyboard_groups seat' = mkGroup g virtual :: keyboard_groups seat) /\
  (negb virtual && joins = false -> new_group = None -> seat' = seat) /\
  (exists added, keyboard_groups seat' = added ++ keyboard_groups seat /\
                 (length added <= 1)%nat).
Proof.
  simpl. unfold gf_keyboard_group_add.
  destruct (negb virtual && existsb _ (keyboard_groups seat)) eqn:Hjoin.
  - repeat split; try done. exists []. split; [done | simpl; lia].
  - repeat split; try done.
    + intros _ g ->. unfold update_capabilities. simpl. by case_match.
    + by intros _ ->.
    + destruct new_group as [g |]; [| exists []; split; [done | simpl; lia]].
      exists [mkGroup g virtual]. split; [| simpl; lia].
      unfold update_capabilities. simpl. by case_match.
Qed.

Lemma keyboard_group_add_cases_witness :
  keyboard_groups (gf_keyboard_group_add (fun _ _ => true) (Some 8%positive) 5 true seat_on_app)
  = mkGroup 8 true :: keyboard_groups seat_on_app.
Proof.
  apply (proj1 (proj2 (keyboard_group_add_cases (fun _ _ => true) (Some 8%positive) 5 true
                         seat_on_app)));
    reflexivity.
Defined.

Lemma keyboard_group_add_keeps_groups (accepts : addr -> addr -> bool)
    (new_group : option addr) (keyboard : addr) (virtual : bool) (seat : gf_seat) :
  exists added,
    keyboard_groups (gf_keyboard_group_add accepts new_group keyboard virtual seat)
    = added ++ keyboard_groups seat.
Proof.
  unfold gf_keyboard_group_add.
  destruct (negb virtual && existsb _ (keyboard_groups seat)); [by exists [] |].
  destruct new_group as [g |]; [| by exists []].
  exists [mkGroup g virtual]. unfold update_capabilities. simpl. by case_match.
Qed.

Lemma seat_step_keeps_groups (seat : gf_seat) (ev : seat_event) :
  exists added, keyboard_groups (seat_step seat ev) = added ++ keyboard_groups seat.
Proof.
  destruct ev as [e device | device]; simpl.
  - destruct device as [k virtual | p | t | a]; simpl; [| | | by exists []].
    + unfold handle_new_keyboard.
      destruct (update_capabilities_lists
                  (gf_keyboard_group_add (group_accepts e) (new_group e) k virtual seat))
        as [-> _].
      apply keyboard_group_add_keeps_groups.
    + exists []. unfold handle_new_pointer. destruct (calloc_ok e); simpl; [| done].
      by destruct (update_capabilities_lists (set_pointers (p :: pointers seat) seat))
        as [-> _].
    + exists []. unfold handle_new_touch. destruct (calloc_ok e); simpl; [| done].
      by destruct (update_capabilities_lists (set_touch (t :: touch seat) seat))
        as [-> _].
  - exists []. destruct device as [k virtual | p | t | a]; simpl; try done.
    + case_bool_decide; [| done]. unfold handle_pointer_destroy.
      by destruct (update_capabilities_lists
                     (set_pointers (wl_list_remove p (pointers seat)) seat)) as [-> _].
    + case_bool_decide; [| done]. unfold handle_touch_destroy.
      by destruct (update_capabilities_lists
                     (set_touch (wl_list_remove t (touch seat)) seat)) as [-> _].
Qed.

(** X13.  No device event removes a keyboard group, so once the seat has
    the keyboard capability it keeps it through every later sequence of
    device additions and removals. *)
Theorem keyboard_capability_is_permanent (seat : gf_seat) (evs : list seat_event) :
  capabilities_derived seat -> keyboard_groups seat <> [] ->
  keyboard_groups (foldl seat_step seat evs) <> [] /\
  Z.land (capabilities (foldl seat_step seat evs)) WL_SEAT_CAPABILITY_KEYBOARD
  = WL_SEAT_CAPABILITY_KEYBOARD.
Proof.
  revert seat. induction evs as [| ev evs IH]; intros seat Hderived Hgroups; simpl.
  - split; [done |]. destruct Hderived as [-> _]. unfold derived_capabilities.
    destruct (keyboard_groups seat); [done |].
    destruct (pointers seat), (touch seat); reflexivity.
  - apply IH; [by apply seat_step_derived |].
    destruct (seat_step_keeps_groups seat ev) as [added ->].
    destruct added; [done | discriminate].
Qed.

Lemma keyboard_capability_is_permanent_witness :
  let seat := handle_new_input (mkAlloc true (fun _ _ => false) (Some 7%positive))
                (WLR_INPUT_DEVICE_KEYBOARD 5 false) seat_create in
  let evs := [DeviceRemoved (WLR_INPUT_DEVICE_KEYBOARD 5 false);
              DeviceAdded (mkAlloc true (fun _ _ => false) None) (WLR_INPUT_DEVICE_POINTER 6);
              DeviceRemoved (WLR_INPUT_DEVICE_POINTER 6)] in
  keyboard_groups (foldl seat_step seat evs) <> [] /\
  Z.land (capabilities (foldl seat_step seat evs)) WL_SEAT_CAPABILITY_KEYBOARD
  = WL_SEAT_CAPABILITY_KEYBOARD.
Proof.
  apply (keyboard_capability_is_permanent
           (handle_new_input (mkAlloc true (fun _ _ => false) (Some 7%positive))
              (WLR_INPUT_DEVICE_KEYBOARD 5 false) seat_create)).
  - split; reflexivity.
  - discriminate.
Defined.

End SeatMore.

(** ** Focus: what setting it does and does not do *)

Section FocusMore.
Import View Seat SeatPointer.

(** X14.  For a view whose surface maps back to it, the focus read after
    [seat_set_focus] is that view when the seat has a keyboard; on a seat
    without keyboard the focus read is the one from before, the view is
    only activated. *)
Theorem focus_set_then_get (view_from_wlr_surface : addr -> option gf_view)
    (seat : gf_seat) (view : gf_view) (surface : addr) :
  wlr_surface view = Some surface -> view_from_wlr_surface surface = Some view ->
  seat_get_focus view_from_wlr_surface (seat_set_focus seat view)
  = match seat_keyboard seat with
    | Some _ => Some view
    | None => seat_get_focus view_from_wlr_surface seat
    end.
Proof.
  intros Hsurface Hview. unfold seat_get_focus, seat_set_focus.
  destruct (seat_keyboard seat); simpl; [| done]. by rewrite Hsurface.
Qed.

Lemma focus_set_then_get_witness :
  seat_get_focus surface_view (seat_set_focus seat_on_app dialog_view) = Some dialog_view.
Proof.
  apply (focus_set_then_get surface_view seat_on_app dialog_view 200); reflexivity.
Defined.

(** X15.  A press that returns either calls nothing or activates the view
    that was hit: the view that loses the focus is never deactivated. *)
Theorem press_only_activates (h : toplevels) (fuel : nat)
    (view_from_wlr_surface : addr -> option gf_view) (seat seat' : gf_seat) (state : Z)
    (view : option gf_view) :
  press_cursor_button h fuel view_from_wlr_surface seat state view = Some seat' ->
  seat_calls seat' = seat_calls seat \/
  exists v, view = Some v /\
            seat_calls seat' = seat_calls seat ++ [view_activate (view_addr v) true].
Proof.
  unfold press_cursor_button.
  repeat (case_match; simplify_eq; try done); intros [= <-]; try (by left).
  right. eexists. split; [done |]. unfold seat_set_focus. by case_match.
Qed.

Lemma press_only_activates_witness :
  seat_calls (seat_set_focus seat_on_app dialog_view) = seat_calls seat_on_app \/
  exists v, Some dialog_view = Some v /\
            seat_calls (seat_set_focus seat_on_app dialog_view)
            = seat_calls seat_on_app ++ [view_activate (view_addr v) true].
Proof.
  apply (press_only_activates dialog_world 2 surface_view seat_on_app _ WLR_BUTTON_PRESSED).
  reflexivity.
Defined.

(** X16.  The focus follows the pointer and not the buttons: a motion that
    brings the cursor over a view [v] other than the focused view [cur],
    with [cur] not transient for [v], runs [seat_set_focus] on [v]; a
    button event is forwarded and leaves the seat as it is. *)
Theorem focus_follows_motion (position delta : Type)
    (wlr_cursor_move : position -> delta -> position)
    (desktop_view_at : position -> option gf_view) (h : toplevels) (fuel : nat)
    (view_from_wlr_surface : addr -> option gf_view)
    (st : pointer_state position) (d : delta) (v cur : gf_view) :
  seat_get_focus view_from_wlr_surface (pseat _ st) = Some cur ->
  desktop_view_at (wlr_cursor_move (cursor_at _ st) d) = Some v ->
  view_addr v <> view_addr cur ->
  view_is_transient_for h fuel cur v = Some false ->
  handle_cursor_motion_relative position delta wlr_cursor_move desktop_view_at h fuel
    view_from_wlr_surface d st
  = Some (mkPointer position (seat_set_focus (pseat _ st) v)
            (wlr_cursor_move (cursor_at _ st) d)
            (pointer_calls _ st ++ [notify_activity])) /\
  forall time_msec button state,
    pseat _ (handle_cursor_button position time_msec button state st) = pseat _ st /\
    pointer_calls _ (handle_cursor_button position time_msec button state st)
    = pointer_calls _ st ++ [wlr_seat_pointer_notify_button time_msec button state;
                             notify_activity].
Proof.
  intros Hcur Hhit Hne Htransient. split; [| done].
  unfold handle_cursor_motion_relative, press_cursor_button.
  rewrite Hhit, Hcur, Htransient. simpl.
  unfold same_view. rewrite bool_decide_eq_false_2; [done |].
  simpl. congruence.
Qed.

Lemma focus_follows_motion_witness :
  handle_cursor_motion_relative Z Z Z.add line_view_at dialog_world 2 surface_view 60
    (mkPointer Z seat_on_app 50 [])
  = Some (mkPointer Z (seat_set_focus seat_on_app dialog_view) 110 [notify_activity]).
Proof.
  apply (focus_follows_motion Z Z Z.add line_view_at dialog_world 2 surface_view
           (mkPointer Z seat_on_app 50 []) 60 dialog_view app_view);
    [reflexivity | reflexivity | discriminate | reflexivity].
Defined.

End FocusMore.

(** ** The hit-test *)

Section SceneProperties.
Import Scene.

Lemma node_with_data_nearest (nodes : addr -> wlr_scene_node) (rank : addr -> nat)
    (fuel : nat) (node : addr) :
  tree_like nodes rank -> (rank node <= fuel)%nat ->
  exists r, node_with_data nodes fuel node = Some r /\
            forall view, r = Some view <-> nearest_data nodes node view.
Proof.
  intros Htree. revert node. induction fuel as [| fuel IH]; intros node Hrank.
  - simpl. destruct (node_data (nodes node)) as [view |] eqn:Hdata.
    + exists (Some view). split; [done |]. intros view'. split.
      * intros [= <-]. by constructor.
      * intros Hn. inversion Hn; simplify_eq. done.
    + destruct (node_parent (nodes node)) as [parent |] eqn:Hparent.
      * specialize (Htree node parent Hparent). lia.
      * exists None. split; [done |]. intros view. split; [done |].
        intros Hn. inversion Hn; simplify_eq.
  - simpl. destruct (node_data (nodes node)) as [view |] eqn:Hdata.
    + exists (Some view). split; [done |]. intros view'. split.
      * intros [= <-]. by constructor.
      * intros Hn. inversion Hn; simplify_eq. done.
    + destruct (node_parent (nodes node)) as [parent |] eqn:Hparent.
      * destruct (IH parent) as [r [Hwalk Hr]];
          [specialize (Htree node parent Hparent); lia |].
        exists r. split; [done |]. intros view. rewrite Hr. split.
        -- intros Hn. by eapply nearest_above.
        -- intros Hn. inversion Hn; simplify_eq. done.
      * exists None. split; [done |]. intros view. split; [done |].
        intros Hn. inversion Hn; simplify_eq.
Qed.

(** X17.  On a scene whose parent pointers form no cycle, with fuel for
    the depth of the node hit, [desktop_view_at] never runs short; it
    returns a view exactly for a buffer node with a surface, and then the
    surface of that node with the data of the nearest node with data on
    the way to the root; it fails its assertion exactly for such a node
    without data anywhere above it. *)
Theorem desktop_view_at_nearest (nodes : addr -> wlr_scene_node) (rank : addr -> nat)
    (fuel : nat) (node : addr) :
  tree_like nodes rank -> (rank node <= fuel)%nat ->
  desktop_view_at nodes fuel (Some node) <> OutOfFuel /\
  (forall view surface,
     desktop_view_at nodes fuel (Some node) = ViewAt view surface <->
     node_type (nodes node) = WLR_SCENE_NODE_BUFFER /\
     node_surface (nodes node) = Some surface /\
     nearest_data nodes node view) /\
  (desktop_view_at nodes fuel (Some node) = AssertionFailed <->
   node_type (nodes node) = WLR_SCENE_NODE_BUFFER /\
   is_Some (node_surface (nodes node)) /\
   forall view, ~ nearest_data nodes node view).
Proof.
  intros Htree Hrank.
  destruct (node_with_data_nearest nodes rank fuel node Htree Hrank) as [r [Hwalk Hr]].
  unfold desktop_view_at. rewrite Hwalk.
  case_bool_decide as Htype; simpl.
  2: { split; [done |]. split; [| split; [done | tauto]].
       intros view surface. split; [done | tauto]. }
  destruct (node_surface (nodes node)) as [surface |] eqn:Hsurface.
  2: { split; [done |]. split.
       - intros view surface. split; [done |]. by intros (_ & ? & _).
       - split; [done |]. by intros (_ & [? ?] & _). }
  destruct r as [view |].
  - split; [done |]. split.
    + intros view' surface'. split.
      * intros [= <- <-]. repeat split; try done. by apply Hr.
      * intros (_ & [= <-] & Hn). apply Hr in Hn. by simplify_eq.
    + split; [done |]. intros (_ & _ & Hnone). destruct (Hnone view). by apply Hr.
  - split; [done |]. split.
    + intros view surface'. split; [done |]. intros (_ & _ & Hn). by apply Hr in Hn.
    + split; [| done]. intros _. split; [done |]. split; [by eexists |].
      intros view Hn. by apply Hr in Hn.
Qed.

Lemma small_scene_tree_like : tree_like small_scene Pos.to_nat.
Proof.
  intros node parent. unfold small_scene.
  repeat case_decide; simpl; intros; simplify_eq; vm_compute; lia.
Qed.

Lemma desktop_view_at_nearest_witness :
  desktop_view_at small_scene 3 (Some 3%positive) <> OutOfFuel /\
  desktop_view_at small_scene 3 (Some 3%positive) = ViewAt View.app_view 100.
Proof.
  destruct (desktop_view_at_nearest small_scene Pos.to_nat 3 3 small_scene_tree_like)
    as (Hfuel & _ & _); [vm_compute; lia |].
  split; [exact Hfuel | reflexivity].
Defined.

End SceneProperties.

(** ** Transient windows as an order, primary views, popups *)

Section XdgMore.
Import View XdgPopup.

Lemma ancestor_trans (parent_of : gmap addr addr) (a b c : addr) :
  ancestor parent_of a b -> ancestor parent_of b c -> ancestor parent_of a c.
Proof.
  intros Hab Hbc. induction Hab as [t a Hp | t m a Hp _ IH].
  - by eapply ancestor_step.
  - eapply ancestor_step; [done |]. by apply IH.
Qed.

(** X18.  On toplevels whose parent pointers form no cycle, with enough
    fuel, [is_transient_for] of xdg_shell.c is a strict order on the
    xdg-shell views: no view is transient for itself, and a view that is
    transient for a second one that is transient for a third is transient
    for the third. *)
Theorem xdg_transient_is_strict_order (h : toplevels) (rank : addr -> nat) (fuel : nat)
    (a b c : gf_view) (ta tb tc : addr) :
  acyclic (xdg_parent h) rank ->
  type a = GAMEFRAME_XDG_SHELL_VIEW -> type b = GAMEFRAME_XDG_SHELL_VIEW ->
  type c = GAMEFRAME_XDG_SHELL_VIEW ->
  native a = Some ta -> native b = Some tb -> native c = Some tc ->
  (rank ta < fuel)%nat -> (rank tb < fuel)%nat ->
  XdgShell.is_transient_for h fuel a a = Some false /\
  (XdgShell.is_transient_for h fuel a b = Some true ->
   XdgShell.is_transient_for h fuel b c = Some true ->
   XdgShell.is_transient_for h fuel a c = Some true).
Proof.
  intros Hacyclic Hta Htb Htc Ha Hb Hc Hra Hrb. split.
  - destruct (xdg_is_transient_for_ancestor h rank fuel a a ta ta Hacyclic Hra Hta Ha Ha)
      as [r [-> Hr]].
    destruct r; [| done].
    pose proof (ancestor_rank _ rank _ _ Hacyclic (proj1 Hr eq_refl)). lia.
  - destruct (xdg_is_transient_for_ancestor h rank fuel a b ta tb Hacyclic Hra Htb Ha Hb)
      as [rab [-> Hab]].
    destruct (xdg_is_transient_for_ancestor h rank fuel b c tb tc Hacyclic Hrb Htc Hb Hc)
      as [rbc [-> Hbc]].
    destruct (xdg_is_transient_for_ancestor h rank fuel a c ta tc Hacyclic Hra Htc Ha Hc)
      as [rac [-> Hac]].
    intros [= ->] [= ->]. f_equal. apply Hac.
    eapply ancestor_trans; [by apply Hab | by apply Hbc].
Qed.

Lemma xdg_transient_is_strict_order_witness :
  XdgShell.is_transient_for dialog_world 3 dialog_view dialog_view = Some false.
Proof.
  apply (xdg_transient_is_strict_order dialog_world Pos.to_nat 3
           dialog_view app_view app_view 2 1 1);
    try reflexivity; try (vm_compute; lia).
  apply dialog_world_acyclic.
Defined.

(** X19.  A primary xdg-shell view (no parent) is transient for no view
    that has a toplevel; a view that is not primary is transient for every
    xdg-shell view on the toplevel that is its parent. *)
Theorem primary_is_never_transient (h : toplevels) (fuel : nat) (view parent : gf_view)
    (tp : addr) :
  native parent = Some tp -> type parent = GAMEFRAME_XDG_SHELL_VIEW ->
  (is_primary h view = Some true ->
   XdgShell.is_transient_for h (S fuel) view parent = Some false) /\
  (is_primary h view = Some false ->
   (exists t, native view = Some t /\ xdg_parent h !! t = Some tp) ->
   XdgShell.is_transient_for h (S fuel) view parent = Some true).
Proof.
  intros Hp Htype. unfold is_primary, XdgShell.is_transient_for. rewrite Htype, Hp. simpl.
  destruct (native view) as [t |]; [| done]. split.
  - intros [= Hprimary]. apply bool_decide_eq_true in Hprimary.
    simpl. rewrite Hprimary. rewrite decide_False by done. by destruct fuel.
  - intros _ [t' [[= <-] Hparent]]. simpl. by rewrite decide_True.
Qed.

Lemma primary_is_never_transient_witness :
  XdgShell.is_transient_for dialog_world 1 app_view dialog_view = Some false /\
  XdgShell.is_transient_for dialog_world 1 dialog_view app_view = Some true.
Proof.
  split.
  - apply (proj1 (primary_is_never_transient dialog_world 0 app_view dialog_view 2
                    eq_refl eq_refl)).
    reflexivity.
  - apply (proj2 (primary_is_never_transient dialog_world 0 dialog_view app_view 1
                    eq_refl eq_refl)).
    + reflexivity.
    + exists 2%positive. split; reflexivity.
Defined.

Lemma popup_get_view_root (xdg_surface_of : addr -> option wlr_xdg_surface)
    (rank : addr -> nat) (fuel : nat) (surface : addr) :
  popups_nest xdg_surface_of rank -> (rank surface < fuel)%nat ->
  exists r, popup_get_view xdg_surface_of fuel (Some surface) = Some r /\
            forall view, r = Some view <->
                         exists root, popup_root xdg_surface_of surface root /\
                                      data root = Some view.
Proof.
  intros Hnest. revert surface. induction fuel as [| fuel IH]; intros surface Hrank; [lia |].
  simpl. destruct (xdg_surface_of surface) as [x |] eqn:Hx.
  2: { exists None. split; [done |]. intros view. split; [done |].
       intros [root [Hroot _]]. inversion Hroot; simplify_eq. }
  destruct (role x) eqn:Hrole.
  - exists None. split; [done |]. intros view. split; [done |].
    intros [root [Hroot _]]. inversion Hroot; simplify_eq; congruence.
  - exists (data x). split; [done |]. intros view. split.
    + intros Hd. exists x. split; [by constructor | done].
    + intros [root [Hroot Hd]]. inversion Hroot; simplify_eq; congruence.
  - destruct (popup_parent x) as [parent |] eqn:Hparent.
    + destruct (IH parent) as [r [Hwalk Hr]];
        [specialize (Hnest surface x parent Hx Hrole Hparent); lia |].
      exists r. split; [done |]. intros view. rewrite Hr. split.
      * intros [root [Hroot Hd]]. exists root. split; [| done].
        by eapply popup_root_popup.
      * intros [root [Hroot Hd]]. exists root. split; [| done].
        inversion Hroot; simplify_eq; [congruence | done].
    + exists None. split; [by destruct fuel |]. intros view. split; [done |].
      intros [root [Hroot _]]. inversion Hroot; simplify_eq; congruence.
Qed.

(** X20.  On popups whose parents form no cycle, with enough fuel,
    [popup_get_view] returns; it returns NULL for a popup without parent,
    and for a popup on a surface the view it returns is the data of the
    toplevel in which the chain of popup parents ends, so a popup of a
    popup resolves to the view of that popup. *)
Theorem popup_get_view_is_root_view (xdg_surface_of : addr -> option wlr_xdg_surface)
    (rank : addr -> nat) (fuel : nat) (surface : addr) :
  popups_nest xdg_surface_of rank -> (rank surface < fuel)%nat ->
  popup_get_view xdg_surface_of fuel None = Some None /\
  (exists r, popup_get_view xdg_surface_of fuel (Some surface) = Some r /\
             forall view, r = Some view <->
                          exists root, popup_root xdg_surface_of surface root /\
                                       data root = Some view) /\
  (forall x parent,
     xdg_surface_of surface = Some x -> role x = WLR_XDG_SURFACE_ROLE_POPUP ->
     popup_parent x = Some parent ->
     popup_get_view xdg_surface_of fuel (Some surface)
     = popup_get_view xdg_surface_of fuel (Some parent)).
Proof.
  intros Hnest Hrank. split; [by destruct fuel |]. split.
  - by eapply popup_get_view_root.
  - intros x parent Hx Hrole Hparent.
    pose proof (Hnest surface x parent Hx Hrole Hparent) as Hlt.
    destruct (popup_get_view_root xdg_surface_of rank fuel surface Hnest Hrank)
      as [r1 [-> H1]].
    destruct (popup_get_view_root xdg_surface_of rank fuel parent Hnest ltac:(lia))
      as [r2 [-> H2]].
    f_equal. destruct r1 as [v1 |], r2 as [v2 |]; try done.
    + destruct (proj1 (H1 v1) eq_refl) as [root [Hroot Hd]].
      inversion Hroot; simplify_eq; [congruence |].
      assert (Some v2 = Some v1) as Heq by (apply H2; eauto). congruence.
    + destruct (proj1 (H1 v1) eq_refl) as [root [Hroot Hd]].
      inversion Hroot; simplify_eq; [congruence |].
      assert (None = Some v1) as Habs by (apply H2; eauto). done.
    + destruct (proj1 (H2 v2) eq_refl) as [root [Hroot Hd]].
      assert (None = Some v2) as Habs.
      { apply H1. exists root. split; [by eapply popup_root_popup | done]. }
      done.
Qed.

Lemma menu_surfaces_nest : popups_nest menu_surfaces Pos.to_nat.
Proof.
  intros surface x parent. unfold menu_surfaces.
  repeat case_decide; simpl; intros; simplify_eq; simpl in *; simplify_eq;
    vm_compute; lia.
Qed.

Lemma popup_get_view_is_root_view_witness :
  popup_get_view menu_surfaces 103 (Some 102%positive)
  = popup_get_view menu_surfaces 103 (Some 101%positive).
Proof.
  destruct (popup_get_view_is_root_view menu_surfaces Pos.to_nat 103 102 menu_surfaces_nest)
    as (_ & _ & Hsame); [vm_compute; lia |].
  apply (Hsame (mkXdgSurface WLR_XDG_SURFACE_ROLE_POPUP None (Some 101%positive)));
    reflexivity.
Defined.

End XdgMore.

(** ** Outputs: mode of a new output, the others, the layout *)

Section OutputMore.
Import Output OutputMode OutputLayout.

Lemma try_modes_closed_form (test : mode_state -> bool) (preferred : option addr)
    (modes : list addr) (state : mode_state) :
  let candidates := filter (fun mode => Some mode <> preferred) modes in
  try_modes test preferred modes state
  = match List.find (fun mode => test (ModeOf mode)) candidates with
    | Some mode => ModeOf mode
    | None => match last candidates with Some mode => ModeOf mode | None => state end
    end.
Proof.
  simpl. revert state. induction modes as [| mode rest IH]; intros state; [done |].
  simpl. case_bool_decide as Hpref.
  - rewrite filter_cons_False by (intros Hne; by apply Hne). apply IH.
  - rewrite filter_cons_True by done. simpl.
    destruct (test (ModeOf mode)) eqn:Htest; [done |].
    rewrite IH, last_cons_or. destruct (List.find _ _); [done |].
    by destruct (last _).
Qed.

Lemma to_int32_small (z : Z) : - 2 ^ 31 <= z < 2 ^ 31 -> to_int32 z = z.
Proof.
  intros Hz. unfold to_int32. rewrite Z.mod_small; lia.
Qed.

(** X21.  The mode of a new output.  With a configured width and height
    above 0 the custom mode is taken, and no test is made of it; its
    refresh is the configured one times 1000 as a 32-bit integer, which is
    the product itself only when that fits.  Otherwise, on an output with
    modes: the preferred mode if the state with it passes the test; else
    the first other mode, in list order, that passes; and when none
    passes, the last other mode of the list (the preferred one if there
    is no other), although it failed the test. *)
Theorem select_mode_choice (test : mode_state -> bool)
    (nested_width nested_height nested_refresh : Z) (modes : list addr)
    (preferred : option addr) :
  let initial := match preferred with Some mode => ModeOf mode | None => ModeUnset end in
  let candidates := filter (fun mode => Some mode <> preferred) modes in
  (0 < nested_width -> 0 < nested_height ->
   select_mode test nested_width nested_height nested_refresh modes preferred
   = ModeCustom nested_width nested_height (to_int32 (nested_refresh * 1000)) /\
   - 2 ^ 31 <= to_int32 (nested_refresh * 1000) < 2 ^ 31 /\
   (- 2 ^ 31 <= nested_refresh * 1000 < 2 ^ 31 ->
    to_int32 (nested_refresh * 1000) = nested_refresh * 1000)) /\
  (nested_width <= 0 \/ nested_height <= 0 -> modes <> [] ->
   select_mode test nested_width nested_height nested_refresh modes preferred
   = if test initial then initial
     else match List.find (fun mode => test (ModeOf mode)) candidates with
          | Some mode => ModeOf mode
          | None => match last candidates with Some mode => ModeOf mode | None => initial end
          end).
Proof.
  simpl. unfold select_mode. split.
  - intros Hw Hh. rewrite (proj2 (Z.ltb_lt 0 nested_width) Hw),
      (proj2 (Z.ltb_lt 0 nested_height) Hh). split; [done |].
    split; [| apply to_int32_small].
    unfold to_int32. pose proof (Z.mod_pos_bound (nested_refresh * 1000 + 2 ^ 31) (2 ^ 32)).
    lia.
  - intros Hsize Hmodes.
    assert ((0 <? nested_width) && (0 <? nested_height) = false) as ->.
    { apply andb_false_iff. destruct Hsize; [left | right]; by apply Z.ltb_ge. }
    destruct modes as [| mode rest]; [done |]. cbn [wl_list_empty negb].
    destruct (test _) eqn:Htest; simpl; [done |].
    apply (try_modes_closed_form test preferred (mode :: rest)).
Qed.

Lemma select_mode_choice_witness :
  select_mode only_mode_3 1280 720 60 [1; 2; 3; 4]%positive (Some 1%positive)
  = ModeCustom 1280 720 60000 /\
  select_mode only_mode_3 1280 720 3000000 [1; 2; 3; 4]%positive (Some 1%positive)
  = ModeCustom 1280 720 (-1294967296) /\
  select_mode only_mode_3 0 0 0 [1; 2; 3; 4]%positive (Some 1%positive) = ModeOf 3 /\
  select_mode only_mode_3 0 0 0 [1; 2; 4]%positive (Some 1%positive) = ModeOf 4.
Proof.
  split; [| split; [| split]].
  - apply (proj1 (select_mode_choice only_mode_3 1280 720 60 [1; 2; 3; 4]%positive
                    (Some 1%positive))); lia.
  - apply (proj1 (select_mode_choice only_mode_3 1280 720 3000000 [1; 2; 3; 4]%positive
                    (Some 1%positive))); lia.
  - apply (proj2 (select_mode_choice only_mode_3 0 0 0 [1; 2; 3; 4]%positive
                    (Some 1%positive))); [lia | discriminate].
  - apply (proj2 (select_mode_choice only_mode_3 0 0 0 [1; 2; 4]%positive
                    (Some 1%positive))); [lia | discriminate].
Defined.

Lemma commit_map_fresh (a : addr) (b : bool) (l : list gf_output) :
  a ∉ map wlr_output l ->
  map (fun o => if decide (wlr_output o = a) then set_enabled b o else o) l = l.
Proof.
  induction l as [| o l IH]; intros Hfresh; [done |].
  simpl in *. apply not_elem_of_cons in Hfresh as [Hne Hfresh].
  rewrite decide_False by done. by rewrite IH.
Qed.

(** X22.  The hotplug of an output that is not listed yet always returns
    and leaves every listed output as it is, enabled flag included, in
    either output mode: the list is unchanged or has the new output put
    in front, and the layout loses no member. *)
Theorem handle_new_output_keeps_others (e : new_output_env) (a : addr) (wl x11 : bool)
    (server : gf_server) :
  a ∉ map wlr_output (outputs server) ->
  exists server',
    handle_new_output e a wl x11 server = Some server' /\
    (outputs server' = outputs server \/
     exists new, outputs server' = new :: outputs server /\ wlr_output new = a) /\
    (forall b, b ∈ output_layout server -> b ∈ output_layout server') /\
    output_mode server' = output_mode server.
Proof.
  intros Hfresh.
  unfold handle_new_output, output_layout_add_auto, update_output_manager_config.
  destruct (init_render_ok e); simpl; [| eexists; split; [done |]; by auto].
  destruct (calloc_ok e); simpl; [| eexists; split; [done |]; by auto].
  destruct (new_scene_output e) as [so |]; simpl.
  2: { eexists. split; [done |]. simpl. split; [right; by eexists | done]. }
  destruct (new_commit_ok e); simpl.
  2: { eexists. split; [done |]. simpl. split; [right; by eexists | done]. }
  case_bool_decide; simpl; (eexists; split; [done |]); simpl;
    rewrite decide_True by done; rewrite (commit_map_fresh a true _ Hfresh).
  - split; [right; by eexists | done].
  - split; [right; by eexists |]. split; [| done].
    intros b Hb. apply elem_of_app. by left.
Qed.

Lemma handle_new_output_keeps_others_witness :
  exists server',
    handle_new_output (hotplug_ok 14) 4 true false three_outputs_server = Some server' /\
    (outputs server' = outputs three_outputs_server \/
     exists new, outputs server' = new :: outputs three_outputs_server /\
                 wlr_output new = 4%positive) /\
    (forall b, b ∈ output_layout three_outputs_server -> b ∈ output_layout server') /\
    output_mode server' = output_mode three_outputs_server.
Proof.
  apply (handle_new_output_keeps_others (hotplug_ok 14) 4 true false three_outputs_server).
  vm_compute. intros Hin.
  repeat (apply elem_of_cons in Hin as [Hin | Hin]; [discriminate |]).
  by apply elem_of_nil in Hin.
Defined.

Lemma listed_map_commit (a b : addr) (l : list gf_output) :
  (exists o, o ∈ l /\ wlr_output o = b /\ is_Some (scene_output o)) ->
  exists o, o ∈ map (fun o => if decide (wlr_output o = a) then set_enabled true o else o) l /\
            wlr_output o = b /\ is_Some (scene_output o).
Proof.
  intros (o & Hin & Hb & Hso).
  set (f := fun o : gf_output => if decide (wlr_output o = a) then set_enabled true o else o).
  exists (f o). split.
  - apply list_elem_of_In, (in_map f), list_elem_of_In, Hin.
  - unfold f. by destruct (decide (wlr_output o = a)).
Qed.

Lemma output_enable_listed (commit_ok : bool) (prev : gf_output) (server server' : gf_server) :
  layout_listed server -> prev ∈ outputs server ->
  output_enable commit_ok prev server = Some server' -> layout_listed server'.
Proof.
  intros Hlisted Hprev.
  unfold output_enable, output_layout_add_auto, update_output_manager_config.
  destruct commit_ok; simpl; [| by intros [= <-]].
  destruct (scene_output prev) as [so |] eqn:Hso; simpl; [| done].
  case_bool_decide; simpl; intros [= <-]; intros b Hb; simpl in *.
  - apply listed_map_commit. by apply Hlisted.
  - apply listed_map_commit. apply elem_of_app in Hb as [Hb | Hb]; [by apply Hlisted |].
    apply list_elem_of_singleton in Hb as ->. exists prev. by rewrite Hso.
Qed.

Lemma unlink_keeps (a : addr) (l : list gf_output) (o : gf_output) :
  o ∈ l -> wlr_output o <> a -> o ∈ unlink a l.
Proof.
  induction l as [| x l IH]; simpl; [done |]. intros Hin Hne.
  apply elem_of_cons in Hin as [-> | Hin].
  - rewrite decide_False by done. by left.
  - destruct (decide (wlr_output x = a)); [done |]. right. by apply IH.
Qed.

Lemma output_step_listed (x11_backend : bool) (server server' : gf_server)
    (ev : output_event) :
  layout_listed server -> output_step x11_backend server ev = Some server' ->
  layout_listed server'.
Proof.
  intros Hlisted. destruct ev as [e a wl x11 | commit_ok a]; cbn -[map].
  - unfold handle_new_output, output_layout_add_auto, update_output_manager_config.
    destruct (init_render_ok e); cbn -[map]; [| by intros [= <-]].
    destruct (calloc_ok e); cbn -[map]; [| by intros [= <-]].
    assert (forall new b, b ∈ output_layout server ->
              exists o, o ∈ new :: outputs server /\ wlr_output o = b /\
                        is_Some (scene_output o)) as Hold.
    { intros new b Hb. destruct (Hlisted b Hb) as (o & Hin & Ho). exists o.
      split; [by right | done]. }
    destruct (new_scene_output e) as [so |]; cbn -[map]; [| intros [= <-]; intros b; apply Hold].
    destruct (new_commit_ok e); cbn -[map]; [| intros [= <-]; intros b; apply Hold].
    case_bool_decide; cbn -[map]; intros [= <-]; intros b Hb; cbn -[map] in *.
    + apply (listed_map_commit a b (_ :: outputs server)). by apply Hold.
    + apply (listed_map_commit a b (_ :: outputs server)).
      apply elem_of_app in Hb as [Hb | Hb]; [by apply Hold |].
      apply list_elem_of_singleton in Hb as ->. eexists. split; [by left |]. by eexists.
  - destruct (find_output a (outputs server)) as [output |] eqn:Hfind;
      [| by intros [= <-]].
    assert (layout_listed
              (output_layout_remove output
                 (set_outputs (unlink (wlr_output output) (outputs server)) server)))
      as Hremoved.
    { intros b Hb. simpl in *. apply list_elem_of_filter in Hb as [Hne Hb].
      destruct (Hlisted b Hb) as (o & Hin & Ho & Hso). exists o.
      split; [apply unlink_keeps; [done | congruence] | done]. }
    unfold output_destroy. cbv zeta.
    set (server1 := output_layout_remove output
                      (set_outputs (unlink (wlr_output output) (outputs server)) server)) in *.
    destruct (wl_list_empty (outputs server1) && is_nested_output _ _).
    { intros [= <-]. unfold server_terminate. by destruct (terminated server1). }
    destruct (bool_decide _ && negb _); [| by intros [= <-]].
    destruct (outputs server1) as [| prev rest] eqn:Hrest; [by intros [= <-] |].
    destruct (output_enable commit_ok prev server1) as [server2 |] eqn:Henable;
      cbn -[map]; [| done].
    intros [= <-].
    eapply output_enable_listed in Henable; [exact Henable | exact Hremoved |].
    rewrite Hrest. by left.
Qed.

(** X23.  Through every sequence of hotplugs and unplugs that returns,
    each member of the layout is the [wlr_output] of an output in the
    list that has a scene output: the layout holds no output that was
    destroyed. *)
Theorem layout_members_are_listed (x11_backend : bool) (evs : list output_event)
    (server server' : gf_server) :
  layout_listed server -> output_run x11_backend server evs = Some server' ->
  layout_listed server'.
Proof.
  revert server. induction evs as [| ev evs IH]; intros server Hlisted; simpl.
  - by intros [= <-].
  - destruct (output_step x11_backend server ev) as [server1 |] eqn:Hstep; simpl; [| done].
    apply IH. by eapply output_step_listed.
Qed.

Lemma layout_members_are_listed_witness : layout_listed three_outputs_server.
Proof.
  apply (layout_members_are_listed false three_outputs last_mode_server).
  - intros a Hin. by apply elem_of_nil in Hin.
  - reflexivity.
Defined.

End OutputMore.

(** ** Output configuration, the legacy entry point *)

Section ConfigMore.
Import Output.

Lemma build_states_result (e : config_env) (states : list addr) (server server' : gf_server)
    (built : bool) :
  build_states e states server = Some (built, server') ->
  (built = true <-> forall a, a ∈ states -> scene_build_ok e a = true) /\
  outputs server' = outputs server /\ output_layout server' = output_layout server /\
  exists extra, calls server' = calls server ++ extra /\ wlr_backend_commit ∉ extra.
Proof.
  revert server. induction states as [| a rest IH]; intros server; simpl.
  - intros [= <- <-]. split; [| split; [done | split; [done |]]].
    + split; [| done]. intros _ a Ha. by apply elem_of_nil in Ha.
    + exists []. split; [by rewrite app_nil_r | apply not_elem_of_nil].
  - destruct (List.find _ _) as [output |]; [| done].
    destruct (scene_build_ok e a) eqn:Hok; simpl.
    + intros Hrest. apply IH in Hrest as (Hbuilt & Houts & Hlay & extra & Hcalls & Hextra).
      simpl in *. split; [| split; [done | split; [done |]]].
      * rewrite Hbuilt. split.
        -- intros Hall b Hb. apply elem_of_cons in Hb as [-> | Hb]; [done | by apply Hall].
        -- intros Hall b Hb. apply Hall. by right.
      * exists (wlr_scene_output_build_state a :: extra).
        split; [by rewrite Hcalls, <- app_assoc |].
        apply not_elem_of_cons. by split.
    + intros [= <- <-]. simpl. split; [| split; [done | split; [done |]]].
      * split; [done |]. intros Hall. rewrite Hall in Hok by left. done.
      * exists [wlr_scene_output_build_state a]. split; [done |].
        apply not_elem_of_cons. split; [done | apply not_elem_of_nil].
Qed.

(** X24.  When [output_config_apply] runs for an apply request and
    returns, it returns true exactly when every stage succeeded (the
    states were built, the swapchains prepared, the scene state built for
    every output, the backend commit accepted); it calls
    [wlr_backend_commit] exactly when every stage before the commit
    succeeded; and it changes neither the list of outputs nor the
    layout. *)
Theorem output_config_apply_stages (e : config_env) (server server' : gf_server) (ok : bool) :
  output_config_apply e false server = Some (ok, server') ->
  let staged := exists states, build_state e = Some states /\ prepare_ok e = true /\
                  forall a, a ∈ states -> scene_build_ok e a = true in
  (ok = true <-> staged /\ backend_commit_ok e = true) /\
  (wlr_backend_commit ∈ drop (length (calls server)) (calls server') <-> staged) /\
  outputs server' = outputs server /\ output_layout server' = output_layout server.
Proof.
  unfold output_config_apply. destruct (build_state e) as [states |] eqn:Hstates.
  2: { intros [= <- <-]. simpl. rewrite drop_all.
       split; [| split; [| done]]; split; try done.
       - by intros [(? & ? & _) _].
       - intros Hin. by apply elem_of_nil in Hin.
       - by intros (? & ? & _). }
  destruct (prepare_ok e) eqn:Hprep; simpl.
  2: { intros [= <- <-]. simpl. rewrite drop_app_length.
       split; [| split; [| done]]; split; try done.
       - by intros [(? & ? & ? & _) _].
       - intros Hin. apply list_elem_of_singleton in Hin. done.
       - by intros (? & ? & ? & _). }
  destruct (build_states e states _) as [[built server1] |] eqn:Hbuild; simpl; [| done].
  apply build_states_result in Hbuild as (Hbuilt & Houts & Hlay & extra & Hcalls & Hextra).
  simpl in *.
  destruct built; simpl; intros [= <- <-]; simpl; rewrite Hcalls, <- !app_assoc,
    drop_app_length.
  - assert (forall a, a ∈ states -> scene_build_ok e a = true) as Hall by by apply Hbuilt.
    split; [| split; [| done]]; split.
    + intros Hok. split; [by exists states | done].
    + by intros [_ Hok].
    + intros _. by exists states.
    + intros _. right. apply elem_of_app. right. by left.
  - split; [| split; [| done]]; split.
    + done.
    + intros [(states' & [= <-] & _ & Hall) _]. by apply Hbuilt in Hall.
    + intros Hin. by apply elem_of_cons in Hin as [Hin | Hin].
    + intros (states' & [= <-] & _ & Hall). by apply Hbuilt in Hall.
Qed.

End ConfigMore.

Section ConfigScenario.
Import Output.

Lemma output_config_apply_stages_witness :
  exists server',
    output_config_apply refused_commit false one_output_server = Some (false, server') /\
    wlr_backend_commit ∈ drop (length (calls one_output_server)) (calls server').
Proof.
  eexists. split; [reflexivity |].
  apply (proj2 (proj1 (proj2
    (output_config_apply_stages refused_commit one_output_server _ false eq_refl)))).
  exists [1%positive]. by repeat split.
Defined.

End ConfigScenario.

Section LegacyProperties.
Import Legacy.

(** X27.  [main] of gameframe.c, for every outcome of the steps it
    tests.  It returns 1, without a client, when the command is missing,
    when one of the display, the backend, the renderer, the allocator,
    the socket and the start of the backend fails, or when the fork
    fails.  Otherwise the client is forked and the loop runs: [main]
    returns exactly when the loop does, and then it returns 0, whatever
    became of the client, after it sent SIGTERM to the client and waited
    for it (for the pid above 0 that a fork gives the parent).  The exit
    status of the client is never the return value. *)
Theorem legacy_main_exit_code (e : env) :
  (setup_ok e = false -> main e = Some (mkResult 1 None false)) /\
  (setup_ok e = true -> fork e = Supervisor.ForkFailed ->
   main e = Some (mkResult 1 None false)) /\
  (forall pid,
     setup_ok e = true -> fork e = Supervisor.ForkParent pid ->
     main e = if loop_returns e then Some (mkResult 0 (Some pid) (0 <? pid)) else None) /\
  (forall r, main e = Some r ->
             (exit_code r = 0 \/ exit_code r = 1) /\
             (exit_code r = 0 <-> child_pid r <> None) /\
             (exit_code r = 0 <-> setup_ok e = true /\ fork e <> Supervisor.ForkFailed)).
Proof.
  unfold setup_ok, main.
  destruct (Z.ltb_spec (argc e) 2) as [Hargc | Hargc].
  { split; [done |]. split; [by rewrite (proj2 (Z.leb_gt 2 (argc e)) Hargc) |].
    split; [intros pid; by rewrite (proj2 (Z.leb_gt 2 (argc e)) Hargc) |].
    intros r [= <-]. simpl. rewrite (proj2 (Z.leb_gt 2 (argc e)) Hargc).
    split; [by right |]. split; split; try done. by intros [? _]. }
  rewrite (proj2 (Z.leb_le 2 (argc e)) Hargc). cbn [andb].
  destruct (wl_display_create e), (wlr_backend_autocreate e), (wlr_renderer_autocreate e),
    (wlr_allocator_autocreate e), (wl_display_add_socket_auto e), (wlr_backend_start e);
    cbn [andb negb];
    try (split; [done |]; split; [done |]; split; [done |];
         intros r [= <-]; simpl; split; [by right |]; split; split; try done;
         by intros [? _]).
  split; [done |]. split; [by intros _ -> |].
  split; [intros pid _ ->; by destruct (loop_returns e) |].
  intros r. destruct (fork e) as [| pid].
  - intros [= <-]. simpl. split; [by right |]. split; split; try done. by intros [_ ?].
  - destruct (loop_returns e); [| done]. intros [= <-]. simpl.
    split; [by left |]. by split.
Qed.

Lemma legacy_main_exit_code_witness :
  main (mkEnv 2 true true true true true true (Supervisor.ForkParent 1234) true)
  = Some (mkResult 0 (Some 1234) true) /\
  main (mkEnv 2 true true true true false true (Supervisor.ForkParent 1234) true)
  = Some (mkResult 1 None false).
Proof.
  split.
  - apply (proj1 (proj2 (proj2
      (legacy_main_exit_code
         (mkEnv 2 true true true true true true (Supervisor.ForkParent 1234) true)))) 1234);
      reflexivity.
  - apply (proj1
      (legacy_main_exit_code
         (mkEnv 2 true true true true false true (Supervisor.ForkParent 1234) true)));
      reflexivity.
Defined.

End LegacyProperties.
